(** * ConvexHull: the incremental hull constructor of [src/main.cc]

    A shallow embedding of [SolverStep] (main.cc, lines 169-234), of the
    [vec2f] arithmetic it uses (lines 43-53), of the geometry builders
    [DrawPoint] and [DrawLine] (lines 101-139), of [GenerateData] (lines
    141-155) and of the loop of [main] (lines 247-312).

    - [float] is IEEE-754 binary32, modelled with the Standard Library's
      executable specification of floating-point arithmetic ([SpecFloat],
      precision 24, exponent bound 128), every operation rounding to nearest
      even as the C++ operators do, one rounding per operator (no fused
      multiply-add contraction).  [double], the type of the animation clock,
      is binary64 (precision 53, exponent bound 1024).
    - [atan2f], [cosf] and [sinf] are libm functions whose code is not part
      of the repository: they are parameters of the development.
      [atan2f_table] gives the values of [atan2f] on the axes and diagonals,
      where the C standard (Annex F) and correct rounding fix them;
      [cosf_table] and [sinf_table] give the correctly rounded cosine and
      sine at the 72 angles [DrawPoint] asks for.  The tables are used only
      to run concrete scenarios.
    - The globals [points], [mean] and [line_segments] are explicit arguments;
      [SolverStep] returns the new [line_segments] together with its boolean
      result, and [SolverStep_buffers] returns the contents of [vertices_d] as
      well.  Reading a vector out of range is undefined behaviour in C++ and
      is modelled by [None].
    - The loop counters are [unsigned int] in the source; they index vectors
      of at most a few dozen elements and are modelled by [nat].  The vertex
      offsets [main] passes to [glDrawArrays] are computed modulo [2^32].
    - The random generator, the clock and the window are the program's
      inputs: [GenerateData] takes the generator's state and a function
      [dist] that draws a number from it; the loop of [main] takes the
      list of the times [glfwGetTime] returns, one for each iteration made
      before the window is closed.  The calls that configure OpenGL, upload
      buffers, read pixels and write files ([MakeWindow], lines 157-166,
      222-231 and 295-310) are not modelled beyond the vertex ranges drawn
      and the names of the files written.

    The development proves, for every [atan2f]: what the selection loop
    picks ([select_loop_spec]), what the closure loop does
    ([closure_check_first_match]), that a call which returned [false] is
    repeated for ever, that the chain without its last vertex holds no two
    vertices equal under [operator==] when the points are pairwise different
    under it, that the chain never holds more than [N + 1] vertices when the
    coordinates are finite, and that a call returns [false] within [N + 1]
    calls once the chain holds two vertices.  Whether the phase in which the
    single seed vertex is replaced (line 210) ends is not settled: it depends
    on the values of [atan2f].  The last part of the file covers the
    geometry written to the vertex buffers, the ranges [main] draws from
    them and the frames it saves. *)

From Stdlib Require Import ZArith List Bool Arith Lia Permutation.
From Stdlib Require Import Floats.SpecFloat.
From Stdlib Require String Ascii DecimalString DecimalZ.
Import ListNotations.
Import String.StringSyntax.
Delimit Scope string_scope with string.

Set Implicit Arguments.

(** ** binary32 arithmetic *)

Module F32.

Definition prec : Z := 24.
Definition emax : Z := 128.

Definition float : Type := spec_float.

Definition add : float -> float -> float := SFadd prec emax.
Definition sub : float -> float -> float := SFsub prec emax.
Definition mul : float -> float -> float := SFmul prec emax.
Definition div : float -> float -> float := SFdiv prec emax.
Definition sqrt : float -> float := SFsqrt prec emax.
Definition abs : float -> float := SFabs.
Definition opp : float -> float := SFopp.
Definition ltb : float -> float -> bool := SFltb.
Definition eqb : float -> float -> bool := SFeqb.

(** The value [m * 2^e], negated when [s] is set. *)
Definition lit (s : bool) (m : positive) (e : Z) : float := S754_finite s m e.

Definition zero : float := S754_zero false.

(** [float(n)] for an integer literal. *)
Definition of_Z (n : Z) : float := binary_normalize prec emax n 0 false.

(** Neither an infinity nor a NaN. *)
Definition is_finite (a : float) : bool :=
  match a with
  | S754_zero _ | S754_finite _ _ _ => true
  | S754_infinity _ | S754_nan => false
  end.

Definition is_nan (a : float) : bool :=
  match a with S754_nan => true | _ => false end.

Definition is_zero (a : float) : bool :=
  match a with S754_zero _ => true | _ => false end.

Definition sign (a : float) : bool :=
  match a with
  | S754_zero s | S754_infinity s | S754_finite s _ _ => s
  | S754_nan => false
  end.

End F32.

Import F32.

(** [const float PI = 3.14159265358979f] (line 15): the binary32 value nearest
    to the literal, [13176795 * 2^-22]. *)
Definition PI : float := lit false 13176795 (-22).

(** [1e-9f], the tolerance of [operator==] (line 50): [9007199 * 2^-53]. *)
Definition eps : float := lit false 9007199 (-53).

Definition f0 : float := zero.
Definition f90 : float := of_Z 90.
Definition f180 : float := of_Z 180.
Definition f360 : float := of_Z 360.

(** ** [struct vec2f] (lines 43-53) *)

Record vec2f : Type := mkvec { x : float; y : float }.

Definition vec_add (u v : vec2f) : vec2f := mkvec (add (x u) (x v)) (add (y u) (y v)).
Definition vec_scale (u : vec2f) (v : float) : vec2f := mkvec (mul (x u) v) (mul (y u) v).
Definition vec_sub (u v : vec2f) : vec2f := mkvec (sub (x u) (x v)) (sub (y u) (y v)).

(** [operator==]: both coordinates differ by less than [1e-9f]. *)
Definition vec_eq (u v : vec2f) : bool :=
  ltb (abs (sub (x u) (x v))) eps && ltb (abs (sub (y u) (y v))) eps.

Definition norm (u : vec2f) : float :=
  sqrt (add (mul (x u) (x u)) (mul (y u) (y u))).

Definition vec_finite (u : vec2f) : bool := is_finite (x u) && is_finite (y u).

(** ** [SolverStep] (lines 169-234) *)

(** What the closure loop of lines 173-181 does. *)
Inductive scan_outcome : Type :=
| ScanReturn            (* [idx == 0]: [return false] *)
| ScanErase (idx : nat) (* [erase(begin, begin+idx+1); break] *)
| ScanNoMatch.          (* the loop ran to its end *)

(** [line_segments.erase(begin, begin+idx+1)]. *)
Definition erase_prefix (idx : nat) (ls : list vec2f) : list vec2f := skipn (S idx) ls.

(** [v[i] = w] on a vector. *)
Fixpoint store (ls : list vec2f) (i : nat) (w : vec2f) : list vec2f :=
  match ls, i with
  | [], _ => []
  | _ :: tl, O => w :: tl
  | a :: tl, S i' => a :: store tl i' w
  end.

Section Solver.

(** libm's [atan2f]. *)
Variable atan2f : float -> float -> float.

(** Lines 200-203: the angle of the candidate direction [v2] against the
    reference direction [v1], in degrees, a negative value [a] replaced by
    [180 - a]. *)
Definition angle (v1 v2 : vec2f) : float :=
  let dot := add (mul (x v1) (x v2)) (mul (y v1) (y v2)) in
  let det := sub (mul (x v1) (y v2)) (mul (y v1) (x v2)) in
  let ang := div (mul (atan2f det dot) f180) PI in
  if ltb ang f0 then sub f180 ang else ang.

(** The loop of lines 173-181 from index [idx] on: [earlier] holds
    [line_segments[idx .. size-2]] and [lastv] is [line_segments[size-1]]. *)
Fixpoint closure_scan (lastv : vec2f) (earlier : list vec2f) (idx : nat) : scan_outcome :=
  match earlier with
  | [] => ScanNoMatch
  | v :: rest =>
      if vec_eq lastv v then
        if idx =? 0 then ScanReturn else ScanErase idx
      else closure_scan lastv rest (S idx)
  end.

(** Lines 171-182. *)
Definition closure_check (line_segments : list vec2f) : scan_outcome :=
  if 1 <? length line_segments then
    match nth_error line_segments (length line_segments - 1) with
    | Some lastv => closure_scan lastv (removelast line_segments) 0
    | None => ScanNoMatch
    end
  else ScanNoMatch.

(** Line 199: the candidate [p] is skipped when [p - l] has norm zero. *)
Definition coincides (l p : vec2f) : bool := eqb (norm (vec_sub p l)) f0.

(** The loop of lines 195-209 from index [idx] on, [pts] holding
    [points[idx ..]]; [l] is [line_segments[lst]] and [v1] the reference
    direction.  Returns [(closest, min_ang)]. *)
Fixpoint select_loop (l v1 : vec2f) (pts : list vec2f) (idx closest : nat)
         (min_ang : float) : nat * float :=
  match pts with
  | [] => (closest, min_ang)
  | pt :: rest =>
      if coincides l pt then select_loop l v1 rest (S idx) closest min_ang
      else
        let ang := angle v1 (vec_sub pt l) in
        if ltb ang min_ang then select_loop l v1 rest (S idx) idx ang
        else select_loop l v1 rest (S idx) closest min_ang
  end.

(** Lines 193-209 for the last vertex [l]. *)
Definition select (points : list vec2f) (mean l : vec2f) : nat * float :=
  select_loop l (vec_sub l mean) points 0 0 f360.

(** The angle line 202-203 computes for candidate [p] when the last vertex
    is [l]. *)
Definition cand_angle (mean l p : vec2f) : float :=
  angle (vec_sub l mean) (vec_sub p l).

(** Lines 185-212 on the chain left by the closure check. *)
Definition extend (points : list vec2f) (mean : vec2f) (line_segments : list vec2f)
  : option (list vec2f) :=
  match line_segments with
  | [] =>
      match nth_error points 0 with
      | Some p0 => Some [p0]
      | None => None
      end
  | _ :: _ =>
      let lst := length line_segments - 1 in
      match nth_error line_segments lst with
      | None => None
      | Some l =>
          let '(closest, min_ang) := select points mean l in
          match nth_error points closest with
          | None => None
          | Some w =>
              if ltb min_ang f90 && (lst =? 0)
              then Some (store line_segments lst w)
              else Some (line_segments ++ [w])
          end
      end
  end.

(** [bool SolverStep()]: the result and the new [line_segments]. *)
Definition SolverStep (points : list vec2f) (mean : vec2f) (line_segments : list vec2f)
  : option (bool * list vec2f) :=
  match closure_check line_segments with
  | ScanReturn => Some (false, line_segments)
  | ScanErase idx =>
      match extend points mean (erase_prefix idx line_segments) with
      | Some ls' => Some (true, ls')
      | None => None
      end
  | ScanNoMatch =>
      match extend points mean line_segments with
      | Some ls' => Some (true, ls')
      | None => None
      end
  end.

(** [n] successive calls, starting from [line_segments]: the final chain and
    the result of the last call ([true] before any call). *)
Fixpoint run (points : list vec2f) (mean : vec2f) (n : nat) (line_segments : list vec2f)
  : option (bool * list vec2f) :=
  match n with
  | O => Some (true, line_segments)
  | S n' =>
      match run points mean n' line_segments with
      | Some (_, ls) => SolverStep points mean ls
      | None => None
      end
  end.

End Solver.

(** ** Values of [atan2f] on the axes and the diagonals

    C11 Annex F.10.1.4 fixes [atan2(+-0, x)] and [atan2(y, +-0)]; on the
    diagonals the result is the binary32 value nearest to [+-pi/4] or
    [+-3pi/4].  Arguments off these eight directions are not tabulated and
    yield NaN; the scenarios run below evaluate tabulated directions only. *)

Definition pi_f : float := lit false 13176795 (-22).
Definition half_pi_f : float := lit false 13176795 (-23).
Definition quarter_pi_f : float := lit false 13176795 (-24).
Definition three_quarter_pi_f : float := lit false 9882596 (-22).

Definition with_sign (s : bool) (a : float) : float := if s then opp a else a.

Definition atan2f_table (b a : float) : float :=
  if is_nan b || is_nan a then S754_nan
  else if is_zero b then
    (if sign a then with_sign (sign b) pi_f else with_sign (sign b) zero)
  else if is_zero a then with_sign (sign b) half_pi_f
  else if eqb (abs b) (abs a) then
    (if sign a then with_sign (sign b) three_quarter_pi_f
     else with_sign (sign b) quarter_pi_f)
  else S754_nan.

(** ** A square around the origin *)

Definition fZ (n : Z) : float := of_Z n.
Definition pt (a b : Z) : vec2f := mkvec (fZ a) (fZ b).

Definition pE : vec2f := pt 1 0.
Definition pN : vec2f := pt 0 1.
Definition pW : vec2f := pt (-1) 0.
Definition pS : vec2f := pt 0 (-1).
Definition origin : vec2f := pt 0 0.
Definition square : list vec2f := [pE; pN; pW; pS].

(** A point at 45 degrees from (1,0), seen from the origin through (1,0). *)
Definition pNE : vec2f := pt 2 1.

(** ** Predicates used in the statements *)

(** All coordinates of the point set are numbers. *)
Definition all_finite (points : list vec2f) : bool := forallb vec_finite points.

(** No two points of the set at different positions are equal under
    [operator==], in either order of the operands. *)
Fixpoint pairwise_distinctb (points : list vec2f) : bool :=
  match points with
  | [] => true
  | p :: rest =>
      forallb (fun q => negb (vec_eq p q) && negb (vec_eq q p)) rest
      && pairwise_distinctb rest
  end.

(** No element is equal, under [operator==], to an element before it: the
    comparison is the one of line 174, later element on the left. *)
Definition eps_nodup (ls : list vec2f) : Prop :=
  ForallOrdPairs (fun a b => vec_eq b a = false) ls.

(** [idx] is the first index below the last at which the chain holds an
    element equal to its last one (the match the loop of lines 173-181
    stops at). *)
Definition first_match (ls : list vec2f) (idx : nat) : Prop :=
  exists lastv v,
    nth_error ls (length ls - 1) = Some lastv /\
    idx < length ls - 1 /\
    nth_error ls idx = Some v /\
    vec_eq lastv v = true /\
    forall j u, j < idx -> nth_error ls j = Some u -> vec_eq lastv u = false.

(** The chain on which lines 185-212 run: [line_segments] after the
    closure check, when that check does not return. *)
Definition chain_at_selection (line_segments : list vec2f) : option (list vec2f) :=
  match closure_check line_segments with
  | ScanReturn => None
  | ScanErase idx => Some (erase_prefix idx line_segments)
  | ScanNoMatch => Some line_segments
  end.

(** The selection loop has picked a candidate: the point at [closest] does
    not coincide with [l], [min_ang] is its angle, no candidate has a
    smaller angle and no candidate before it has an equal one. *)
Definition selects_first_least (atan2f : float -> float -> float)
           (points : list vec2f) (mean l : vec2f) : Prop :=
  let '(closest, min_ang) := select atan2f points mean l in
  exists w,
    nth_error points closest = Some w /\
    coincides l w = false /\
    min_ang = cand_angle atan2f mean l w /\
    forall j q,
      nth_error points j = Some q -> coincides l q = false ->
      ltb (cand_angle atan2f mean l q) (cand_angle atan2f mean l w) = false /\
      (j < closest ->
       eqb (cand_angle atan2f mean l q) (cand_angle atan2f mean l w) = false).

(** [R] holds of every two consecutive elements of the chain. *)
Fixpoint adjacent_all (R : vec2f -> vec2f -> Prop) (ls : list vec2f) : Prop :=
  match ls with
  | a :: (b :: _) as tl => R a b /\ adjacent_all R tl
  | _ => True
  end.

(** How a vertex [b] comes to follow a vertex [a] (lines 193-211): as a
    candidate that passed the test of line 199, or as [points[0]] when the
    loop left [closest] and [min_ang] at their initial values. *)
Definition follows (atan2f : float -> float -> float)
           (points : list vec2f) (mean a b : vec2f) : Prop :=
  coincides a b = false \/
  (nth_error points 0 = Some b /\ select atan2f points mean a = (0, f360)).

(** The chain holds points of the point set, and without its last element
    it holds no element equal to an earlier one. *)
Definition chain_inv (points ls : list vec2f) : Prop :=
  Forall (fun v => In v points) ls /\ eps_nodup (removelast ls).

(** [b] is the point the selection loop leaves at [closest] when the last
    vertex is [a]. *)
Definition selected_from (atan2f : float -> float -> float)
           (points : list vec2f) (mean a b : vec2f) : Prop :=
  nth_error points (fst (select atan2f points mean a)) = Some b.

(** The value [GenerateData] (lines 149-155) accumulates in [mean], from its
    initial value (0,0) of line 57, over the points it draws; [kSamples] is
    20 in the source (line 17). *)
Definition GenerateData_mean (kSamples : Z) (points : list vec2f) : vec2f :=
  fold_left (fun m p => vec_add m (vec_scale p (div (of_Z 1) (of_Z kSamples))))
            points (mkvec zero zero).

(** Four points on the x axis at [k * 2^-33], two of them closer than the
    tolerance of [operator==]. *)
Definition tiny (k : Z) : vec2f := mkvec (binary_normalize prec emax k (-33) false) zero.
Definition close_points : list vec2f := [tiny 16; tiny 12; tiny 0; tiny 40].

(** A point whose coordinates are not numbers. *)
Definition nan_point : vec2f := mkvec S754_nan S754_nan.

(** An [atan2f] that always answers 0. *)
Definition atan2f_zero (b a : float) : float := zero.

(** The point at [(a * 2^-33, b * 2^-33)].  The tolerance [1e-9f] of
    [operator==] lies between [8 * 2^-33] and [9 * 2^-33]. *)
Definition grid (a b : Z) : vec2f :=
  mkvec (binary_normalize prec emax a (-33) false) (binary_normalize prec emax b (-33) false).

(** Four different points, three of them close together: (-4,-2) and (3,5),
    and (3,5) and (5,3), are equal under [operator==]; (-4,-2) and (5,3)
    are not, and (-7,9) is equal to none of the others. *)
Definition near_points : list vec2f := [grid (-7) 9; grid (-4) (-2); grid 3 5; grid 5 3].

(** The mean [GenerateData] computes for them, [(-3/4, 15/4) * 2^-33]. *)
Definition near_mean : vec2f :=
  mkvec (binary_normalize prec emax (-3) (-35) false) (binary_normalize prec emax 15 (-35) false).

(** [atan2f(det * 2^-70, dot * 2^-70)] is the number [m * 2^e], negated
    when [s] is set. *)
Definition sample (det dot : Z) (s : bool) (m : positive) (e : Z) : float * float * float :=
  (binary_normalize prec emax det (-70) false, binary_normalize prec emax dot (-70) false,
   lit s m e).

(** The values of [atan2f], rounded to the nearest binary32 number, at the
    twelve arguments the selection loop evaluates over [near_points]: for
    every vertex of the chain and every other point, [det] and [dot] are
    exact multiples of [2^-70].  In degrees the values are 145.29, -161.77,
    -166.53 (from (-7,9)), -135.27, 164.48, 148.53 (from (-4,-2)), 160.87,
    -143.51, 142.43 (from (5,3)) and 139.76, -153.43, -63.43 (from
    (3,5)). *)
Definition atan2f_samples : list (float * float * float) := [
  sample 848 (-1224) false 10635531 (-22);
  sample (-440) (-1336) true 11842362 (-22);
  sample (-408) (-1704) true 12191082 (-22);
  sample (-848) (-856) true 9902287 (-22);
  sample 280 (-1008) false 12040361 (-22);
  sample 568 (-928) false 10873088 (-22);
  sample 408 (-1176) false 11776127 (-22);
  sample (-568) (-768) true 10505857 (-22);
  sample 160 (-208) false 10426608 (-22);
  sample 440 (-520) false 10231316 (-22);
  sample (-280) (-560) true 11232116 (-22);
  sample (-160) 80 true 9287437 (-23)
].

(** [atan2f] at the sampled arguments, and as tabulated on the axes and
    diagonals elsewhere. *)
Definition atan2f_sampled (b a : float) : float :=
  match find (fun r => eqb (fst (fst r)) b && eqb (snd (fst r)) a) atan2f_samples with
  | Some r => snd r
  | None => atan2f_table b a
  end.

(** ** binary64 arithmetic: the [double] of the animation clock *)

Module F64.

Definition prec : Z := 53.
Definition emax : Z := 1024.

Definition double : Type := spec_float.

Definition sub : double -> double -> double := SFsub prec emax.
Definition opp : double -> double := SFopp.
Definition leb : double -> double -> bool := SFleb.

End F64.

(** ** Constants of the program (lines 16-21) *)

Definition kPointNodes : nat := 72.
Definition kSamples : nat := 20.
Definition kWinHeight : Z := 900.
Definition out_dir : String.string := "out"%string.

(** [const double kAnime = 0.1]: the binary64 value nearest to the literal,
    [7205759403792794 * 2^-56]. *)
Definition kAnime : F64.double := S754_finite false 7205759403792794 (-56).

(** ** [DrawLine] (lines 122-139) *)

(** The eight floats of one quad, in the order [C], [A], [D], [B] of lines
    114 and 137. *)
Definition quad_floats (C A D B : vec2f) : list float :=
  [x C; y C; x A; y A; x D; y D; x B; y B].

(** [0.01f], the width of a segment: [10737418 * 2^-30]. *)
Definition line_width : float := lit false 10737418 (-30).

Definition DrawLine (pt1 pt2 : vec2f) (container : list float) : list float :=
  let v := vec_sub pt2 pt1 in
  let n := mkvec (opp (y v)) (x v) in
  let nrm := norm n in
  if eqb nrm f0 then container
  else
    let p := vec_scale n (div line_width (mul (of_Z 2) nrm)) in
    let A := vec_add pt1 p in
    let B := vec_sub pt1 p in
    let C := vec_sub pt2 p in
    let D := vec_add pt2 p in
    container ++ quad_floats C A D B.

(** ** [DrawPoint] (lines 101-120) *)

(** [0.02f] and [0.015f], the outer and the inner radius of the ring drawn
    for a point: [10737418 * 2^-29] and [16106127 * 2^-30]. *)
Definition r1 : float := lit false 10737418 (-29).
Definition r2 : float := lit false 16106127 (-30).

(** Line 109: [2*PI*j/float(kPointNodes)], evaluated in [float]. *)
Definition node_angle (j : nat) : float :=
  div (mul (mul (of_Z 2) PI) (of_Z (Z.of_nat j))) (of_Z (Z.of_nat kPointNodes)).

(** ** Vertex ranges and frames of [main] *)

(** Arithmetic on [unsigned int]. *)
Definition u32 (z : Z) : Z := (z mod 2 ^ 32)%Z.

Definition INT_MAX : Z := 2147483647%Z.

(** Lines 269-272: the [(first, count)] arguments of the [glDrawArrays]
    calls made on the buffer of [GenerateData]. *)
Definition static_draw_calls : list (Z * Z) :=
  map (fun i => (u32 (4 * Z.of_nat i * Z.of_nat kPointNodes)%Z,
                 u32 (4 * Z.of_nat kPointNodes)%Z))
      (seq 0 kSamples).

(** Lines 277-291: the [(first, count)] arguments of the [glDrawArrays]
    calls made on the buffer of [SolverStep] when [line_segments] holds
    [size] elements, in the order of the calls: the segments but the last,
    the last segment, the rings of the vertices but the last, the ring of
    the last vertex and the ring of [mean].  With an empty [line_segments]
    the bound [line_segments.size()-1] of the loops wraps round, and beyond
    [2^32] elements the counter [i] does: these cases are not modelled. *)
Definition dynamic_draw_calls (size : nat) : option (list (Z * Z)) :=
  match size with
  | O => None
  | S m =>
      if (2 ^ 32 <=? Z.of_nat size)%Z then None
      else
        let segments := u32 (Z.of_nat size) in
        let nodes := Z.of_nat kPointNodes in
        let points_vertices := u32 (4 * (segments + 1) * nodes)%Z in
        Some (map (fun i => (u32 (points_vertices + Z.of_nat i * 4)%Z, 4%Z)) (seq 0 m)
              ++ [(u32 (points_vertices + (segments - 1) * 4)%Z, 4%Z)]
              ++ map (fun i => (u32 (4 * Z.of_nat i * nodes)%Z, u32 (4 * nodes)%Z)) (seq 0 m)
              ++ [(u32 (4 * (segments - 1) * nodes)%Z, u32 (4 * nodes)%Z);
                  (u32 (4 * segments * nodes)%Z, u32 (4 * nodes)%Z)])
  end.

(** A call reads vertices of the buffer only: a vertex is two floats (lines
    161 and 226). *)
Definition in_buffer (buffer : list float) (call : Z * Z) : Prop :=
  (0 <= fst call /\ 2 * (fst call + snd call) <= Z.of_nat (length buffer))%Z.

(** [std::to_string(k)] for an [int]. *)
Definition to_string (k : Z) : String.string :=
  DecimalString.NilEmpty.string_of_int (Z.to_int k).

(** Lines 306 and 308: [out_dir+"/"+std::to_string(k)+std::string(".png")]. *)
Definition frame_name (k : Z) : String.string :=
  String.append (String.append (String.append out_dir "/") (to_string k)) ".png".

(** Lines 297-300: the length in bytes of a row of the saved image, and the
    size of the buffer the pixels are read into. *)
Definition row_stride (channels width : Z) : Z :=
  let stride := (channels * width)%Z in
  (stride + (if Z.rem stride 4 =? 0 then 0 else 4 - Z.rem stride 4))%Z.

Definition frame_buffer_size (channels width height : Z) : Z :=
  (row_stride channels width * height)%Z.

(** The locals and globals the loop of [main] changes (lines 247-312):
    [line_segments], [vertices_d], [k], [k_saved], [prev_time] and the names
    of the files written so far, in the order they were written. *)
Record main_state : Type := mk_main {
  ms_line_segments : list vec2f;
  ms_vertices_d : list float;
  ms_k : Z;
  ms_k_saved : Z;
  ms_prev_time : F64.double;
  ms_files : list String.string
}.

(** The state before the first iteration (lines 58, 60, 247, 253, 254). *)
Definition main_init : main_state := mk_main [] [] 0%Z 0%Z (F64.opp kAnime) [].

Section Program.

(** libm's [atan2f], [cosf] and [sinf] ([std::cos] and [std::sin] on a
    [float]). *)
Variable atan2f : float -> float -> float.
Variables cosf sinf : float -> float.

(** The loop of lines 107-119 from [j] on, [n] iterations being left. *)
Fixpoint DrawPoint_loop (center A B : vec2f) (j n : nat) (container : list float)
  : list float :=
  match n with
  | O => container
  | S n' =>
      let ang := node_angle j in
      let dir := mkvec (cosf ang) (sinf ang) in
      let C := vec_add center (vec_scale dir r1) in
      let D := vec_add center (vec_scale dir r2) in
      DrawPoint_loop center C D (S j) n' (container ++ quad_floats C A D B)
  end.

Definition DrawPoint (center : vec2f) (container : list float) : list float :=
  DrawPoint_loop center (vec_add center (mkvec r1 zero)) (vec_add center (mkvec r2 zero))
                 1 kPointNodes container.

(** The loop of lines 218-219 from [i] on: [prev] is [line_segments[i-1]]
    and [rest] holds [line_segments[i ..]]. *)
Fixpoint draw_segments (prev : vec2f) (rest : list vec2f) (container : list float)
  : list float :=
  match rest with
  | [] => container
  | v :: tl => draw_segments v tl (DrawLine v prev container)
  end.

(** Lines 183 and 214-220: the contents of [vertices_d] rebuilt from the
    chain.  With an empty chain line 220 reads [line_segments[size-1]] out
    of range. *)
Definition draw_chain (mean : vec2f) (line_segments : list vec2f) : option (list float) :=
  match line_segments with
  | [] => None
  | a :: rest =>
      let c1 := fold_left (fun c v => DrawPoint v c) line_segments [] in
      let c2 := DrawPoint mean c1 in
      let c3 := draw_segments a rest c2 in
      match nth_error line_segments (length line_segments - 1) with
      | Some l => Some (DrawLine mean l c3)
      | None => None
      end
  end.

(** [bool SolverStep()] with the buffer it fills: the result, the new
    [line_segments] and the new [vertices_d].  The call that returns [false]
    at line 176 has not reached line 183. *)
Definition SolverStep_buffers (points : list vec2f) (mean : vec2f)
           (line_segments : list vec2f) (vertices_d : list float)
  : option (bool * list vec2f * list float) :=
  match SolverStep atan2f points mean line_segments with
  | None => None
  | Some (false, ls') => Some (false, ls', vertices_d)
  | Some (true, ls') =>
      match draw_chain mean ls' with
      | Some vd' => Some (true, ls', vd')
      | None => None
      end
  end.

(** One iteration of the loop of lines 256-312 when [glfwGetTime] returns
    [current_time]: the solver is called if [kAnime] has elapsed (lines
    258-263), the frame is drawn (lines 265-293) and, when [k] has changed,
    saved (lines 295-310).  [k + 1] beyond [INT_MAX] is undefined. *)
Definition main_iteration (points : list vec2f) (mean : vec2f)
           (current_time : F64.double) (st : main_state) : option main_state :=
  let stepped :=
    if F64.leb (ms_prev_time st) (F64.sub current_time kAnime) then
      match SolverStep_buffers points mean (ms_line_segments st) (ms_vertices_d st) with
      | Some (b, ls, vd) =>
          let k := (ms_k st + Z.b2z b)%Z in
          if (k <=? INT_MAX)%Z then Some (ls, vd, k, current_time) else None
      | None => None
      end
    else Some (ms_line_segments st, ms_vertices_d st, ms_k st, ms_prev_time st)
  in
  match stepped with
  | None => None
  | Some (ls, vd, k, prev) =>
      match dynamic_draw_calls (length ls) with
      | None => None
      | Some _ =>
          if (k =? ms_k_saved st)%Z
          then Some (mk_main ls vd k (ms_k_saved st) prev (ms_files st))
          else Some (mk_main ls vd k k prev (ms_files st ++ [frame_name k]))
      end
  end.

(** The loop of [main] over the times returned by [glfwGetTime], one for
    each iteration made before the window is closed. *)
Fixpoint main_loop (points : list vec2f) (mean : vec2f) (times : list F64.double)
         (st : main_state) : option main_state :=
  match times with
  | [] => Some st
  | t :: rest =>
      match main_iteration points mean t st with
      | Some st' => main_loop points mean rest st'
      | None => None
      end
  end.

(** The random generator [gen] and the distribution [dist] of lines 146-148
    are library objects: [G] is the type of the generator's states and
    [dist g] the number [dist(gen)] returns together with the state it
    leaves the generator in. *)
Variable G : Type.
Variable dist : G -> float * G.

(** The loop of lines 149-155, [n] iterations being left, on the generator
    and the globals [points], [mean] and [vertices]. *)
Fixpoint GenerateData_loop (n : nat) (gen : G) (points : list vec2f) (mean : vec2f)
         (vertices : list float) : G * (list vec2f * vec2f * list float) :=
  match n with
  | O => (gen, (points, mean, vertices))
  | S n' =>
      let '(px, gen1) := dist gen in
      let '(py, gen2) := dist gen1 in
      let pt := mkvec px py in
      GenerateData_loop n' gen2 (points ++ [pt])
        (vec_add mean (vec_scale pt (div (of_Z 1) (of_Z (Z.of_nat kSamples)))))
        (DrawPoint pt vertices)
  end.

(** [GenerateData()] as [main] calls it, on the initial globals: [points]
    and [vertices] empty, [mean] at (0,0) (lines 56-59). *)
Definition GenerateData (gen : G) : G * (list vec2f * vec2f * list float) :=
  GenerateData_loop kSamples gen [] (mkvec zero zero) [].

(** [main] from line 245 on. *)
Definition main (gen : G) (times : list F64.double) : option main_state :=
  let '(_, (points, mean, _)) := GenerateData gen in
  main_loop points mean times main_init.

End Program.

(** ** Values of [cosf] and [sinf] at the angles of [DrawPoint]

    The angle [node_angle j], its cosine and its sine, both rounded to the
    nearest binary32 value, for [j] from 1 to 72.  Other arguments are not
    tabulated and yield NaN. *)

Definition trig_table : list (float * (float * float)) := [
  (lit false 11712707 (-27), (lit false 16713374 (-24), lit false 11697846 (-27)));
  (lit false 11712707 (-26), (lit false 16522332 (-24), lit false 11653333 (-26)));
  (lit false 8784530 (-25), (lit false 16205546 (-24), lit false 8684526 (-25)));
  (lit false 11712707 (-25), (lit false 15765426 (-24), lit false 11476292 (-25)));
  (lit false 14640884 (-25), (lit false 15205321 (-24), lit false 14180717 (-25)));
  (lit false 8784530 (-24), (lit false 14529495 (-24), lit false 8388608 (-24)));
  (lit false 10248619 (-24), (lit false 13743090 (-24), lit false 9623017 (-24)));
  (lit false 11712707 (-24), (lit false 12852093 (-24), lit false 10784187 (-24)));
  (lit false 13176795 (-24), (lit false 11863283 (-24), lit false 11863283 (-24)));
  (lit false 14640884 (-24), (lit false 10784186 (-24), lit false 12852094 (-24)));
  (lit false 16104972 (-24), (lit false 9623015 (-24), lit false 13743091 (-24)));
  (lit false 8784530 (-23), (lit false 16777215 (-25), lit false 14529496 (-24)));
  (lit false 9516574 (-23), (lit false 14180715 (-25), lit false 15205322 (-24)));
  (lit false 10248619 (-23), (lit false 11476288 (-25), lit false 15765427 (-24)));
  (lit false 10980662 (-23), (lit false 8684527 (-25), lit false 16205546 (-24)));
  (lit false 11712707 (-23), (lit false 11653327 (-26), lit false 16522333 (-24)));
  (lit false 12444751 (-23), (lit false 11697838 (-27), lit false 16713374 (-24)));
  (lit false 13176795 (-23), (lit true 12303662 (-48), lit false 8388608 (-23)));
  (lit false 13908839 (-23), (lit true 11697849 (-27), lit false 16713374 (-24)));
  (lit false 14640884 (-23), (lit true 11653340 (-26), lit false 16522332 (-24)));
  (lit false 15372928 (-23), (lit true 8684530 (-25), lit false 16205546 (-24)));
  (lit false 16104972 (-23), (lit true 11476295 (-25), lit false 15765426 (-24)));
  (lit false 8418508 (-22), (lit true 14180718 (-25), lit false 15205321 (-24)));
  (lit false 8784530 (-22), (lit true 8388609 (-24), lit false 14529495 (-24)));
  (lit false 9150552 (-22), (lit true 9623016 (-24), lit false 13743090 (-24)));
  (lit false 9516574 (-22), (lit true 10784187 (-24), lit false 12852093 (-24)));
  (lit false 9882596 (-22), (lit true 11863283 (-24), lit false 11863283 (-24)));
  (lit false 10248619 (-22), (lit true 12852096 (-24), lit false 10784184 (-24)));
  (lit false 10614640 (-22), (lit true 13743091 (-24), lit false 9623016 (-24)));
  (lit false 10980662 (-22), (lit true 14529495 (-24), lit false 8388609 (-24)));
  (lit false 11346684 (-22), (lit true 15205321 (-24), lit false 14180718 (-25)));
  (lit false 11712707 (-22), (lit true 15765427 (-24), lit false 11476287 (-25)));
  (lit false 12078729 (-22), (lit true 16205547 (-24), lit false 8684522 (-25)));
  (lit false 12444751 (-22), (lit true 16522333 (-24), lit false 11653324 (-26)));
  (lit false 12810773 (-22), (lit true 16713374 (-24), lit false 11697832 (-27)));
  (lit false 13176795 (-22), (lit true 8388608 (-23), lit true 12303662 (-47)));
  (lit false 13542817 (-22), (lit true 16713374 (-24), lit true 11697855 (-27)));
  (lit false 13908839 (-22), (lit true 16522332 (-24), lit true 11653335 (-26)));
  (lit false 14274861 (-22), (lit true 16205546 (-24), lit true 8684527 (-25)));
  (lit false 14640884 (-22), (lit true 15765425 (-24), lit true 11476300 (-25)));
  (lit false 15006905 (-22), (lit true 15205322 (-24), lit true 14180716 (-25)));
  (lit false 15372928 (-22), (lit true 14529493 (-24), lit true 8388611 (-24)));
  (lit false 15738949 (-22), (lit true 13743091 (-24), lit true 9623015 (-24)));
  (lit false 16104972 (-22), (lit true 12852091 (-24), lit true 10784189 (-24)));
  (lit false 16470994 (-22), (lit true 11863281 (-24), lit true 11863285 (-24)));
  (lit false 8418508 (-21), (lit true 10784185 (-24), lit true 12852095 (-24)));
  (lit false 8601519 (-21), (lit true 9623014 (-24), lit true 13743092 (-24)));
  (lit false 8784530 (-21), (lit true 16777213 (-25), lit true 14529496 (-24)));
  (lit false 8967541 (-21), (lit true 14180713 (-25), lit true 15205322 (-24)));
  (lit false 9150552 (-21), (lit true 11476289 (-25), lit true 15765427 (-24)));
  (lit false 9333564 (-21), (lit true 8684509 (-25), lit true 16205549 (-24)));
  (lit false 9516574 (-21), (lit true 11653329 (-26), lit true 16522333 (-24)));
  (lit false 9699585 (-21), (lit true 11697842 (-27), lit true 16713374 (-24)));
  (lit false 9882596 (-21), (lit false 13426222 (-50), lit true 8388608 (-23)));
  (lit false 10065607 (-21), (lit false 11697845 (-27), lit true 16713374 (-24)));
  (lit false 10248619 (-21), (lit false 11653362 (-26), lit true 16522331 (-24)));
  (lit false 10431629 (-21), (lit false 8684525 (-25), lit true 16205546 (-24)));
  (lit false 10614640 (-21), (lit false 11476290 (-25), lit true 15765426 (-24)));
  (lit false 10797652 (-21), (lit false 14180728 (-25), lit true 15205319 (-24)));
  (lit false 10980662 (-21), (lit false 16777213 (-25), lit true 14529496 (-24)));
  (lit false 11163674 (-21), (lit false 9623021 (-24), lit true 13743087 (-24)));
  (lit false 11346684 (-21), (lit false 10784185 (-24), lit true 12852094 (-24)));
  (lit false 11529696 (-21), (lit false 11863287 (-24), lit true 11863279 (-24)));
  (lit false 11712707 (-21), (lit false 12852096 (-24), lit true 10784183 (-24)));
  (lit false 11895717 (-21), (lit false 13743089 (-24), lit true 9623018 (-24)));
  (lit false 12078729 (-21), (lit false 14529498 (-24), lit true 16777208 (-25)));
  (lit false 12261740 (-21), (lit false 15205323 (-24), lit true 14180708 (-25)));
  (lit false 12444751 (-21), (lit false 15765427 (-24), lit true 11476284 (-25)));
  (lit false 12627762 (-21), (lit false 16205547 (-24), lit true 8684519 (-25)));
  (lit false 12810773 (-21), (lit false 16522333 (-24), lit true 11653318 (-26)));
  (lit false 12993784 (-21), (lit false 16713374 (-24), lit true 11697820 (-27)));
  (lit false 13176795 (-21), (lit false 8388608 (-23), lit false 12303662 (-46)))
].

Definition trig_lookup (a : float) : option (float * float) :=
  match find (fun row => eqb (fst row) a) trig_table with
  | Some row => Some (snd row)
  | None => None
  end.

Definition cosf_table (a : float) : float :=
  match trig_lookup a with Some cs => fst cs | None => S754_nan end.

Definition sinf_table (a : float) : float :=
  match trig_lookup a with Some cs => snd cs | None => S754_nan end.

(** ** Predicates used in the statements on the buffers *)

(** The segments [SolverStep] passes to [DrawLine] (lines 218-220), as
    [(pt1, pt2)]: every vertex with the one before it, then [mean] with the
    last vertex. *)
Fixpoint chain_segments (prev : vec2f) (rest : list vec2f) : list (vec2f * vec2f) :=
  match rest with
  | [] => []
  | v :: tl => (v, prev) :: chain_segments v tl
  end.

Definition all_segments (mean : vec2f) (line_segments : list vec2f) : list (vec2f * vec2f) :=
  match line_segments with
  | [] => []
  | a :: rest => chain_segments a rest ++ [(mean, last line_segments a)]
  end.

(** The numbers [dist] returns on [n] successive calls. *)
Fixpoint draws (G : Type) (dist : G -> float * G) (n : nat) (gen : G) : list float :=
  match n with
  | O => []
  | S n' => fst (dist gen) :: draws dist n' (snd (dist gen))
  end.

(** Consecutive numbers taken two by two as coordinates. *)
Fixpoint pair_up (l : list float) : list vec2f :=
  match l with
  | a :: b :: tl => mkvec a b :: pair_up tl
  | _ => []
  end.

(** A generator that returns the elements of a list in turn, then 0. *)
Definition list_dist (g : list float) : float * list float :=
  match g with
  | [] => (zero, [])
  | a :: tl => (a, tl)
  end.

(** The times [0, 0.125, 0.25, ...], in seconds: [n] of them, from
    [start/8] on. *)
Definition eighth (i : Z) : F64.double := binary_normalize F64.prec F64.emax i (-3) false.
Definition clock_from (start n : nat) : list F64.double :=
  map (fun i => eighth (Z.of_nat i)) (seq start n).
Definition clock (n : nat) : list F64.double := clock_from 0 n.

(** The vertex of the ring of radius [r] around [center] at node [j]: node 0
    is the point at [(r, 0)] from the centre (lines 105-106), node [j] the
    point in the direction of angle [node_angle j] (lines 109-112). *)
Definition ring_vertex (cosf sinf : float -> float) (center : vec2f) (r : float) (j : nat)
  : vec2f :=
  match j with
  | O => vec_add center (mkvec r zero)
  | S _ =>
      vec_add center
              (vec_scale (mkvec (cosf (node_angle j)) (sinf (node_angle j))) r)
  end.

(** The floats of the quad between the nodes [j - 1] and [j]. *)
Definition ring_quad (cosf sinf : float -> float) (center : vec2f) (j : nat) : list float :=
  quad_floats (ring_vertex cosf sinf center r1 j) (ring_vertex cosf sinf center r1 (j - 1))
              (ring_vertex cosf sinf center r2 j) (ring_vertex cosf sinf center r2 (j - 1)).

(** The part of a buffer a call [(first, count)] of [glDrawArrays] reads. *)
Definition slice (buffer : list float) (call : Z * Z) : list float :=
  firstn (2 * Z.to_nat (snd call)) (skipn (2 * Z.to_nat (fst call)) buffer).

(** The names of the frames numbered 1 to [k]. *)
Definition frame_names (k : Z) : list String.string :=
  map (fun i => frame_name (Z.of_nat i)) (seq 1 (Z.to_nat k)).

(** What holds of the state of the loop of [main] after any number of
    iterations: [k_saved] has caught up with [k], the files written are the
    frames 1 to [k], [line_segments] is a chain the solver reaches from the
    empty chain, and, once an iteration has been made, [vertices_d] is the
    buffer built from [line_segments]. *)
Definition main_invariant (atan2f : float -> float -> float) (cosf sinf : float -> float)
           (points : list vec2f) (mean : vec2f) (st : main_state) : Prop :=
  ms_k_saved st = ms_k st /\
  (0 <= ms_k st <= INT_MAX)%Z /\
  ms_files st = frame_names (ms_k st) /\
  (exists n b, run atan2f points mean n [] = Some (b, ms_line_segments st)) /\
  (st = main_init \/
   (dynamic_draw_calls (length (ms_line_segments st)) <> None /\
    draw_chain cosf sinf mean (ms_line_segments st) = Some (ms_vertices_d st))).

(** Forty numbers for [dist]: the coordinates of the twenty points
    (-10,0), (-9,0), ..., (9,0). *)
Definition left_draws : list float :=
  flat_map (fun i => [fZ (Z.of_nat i - 10); fZ 0]) (seq 0 20).


(** ** Order properties of the binary32 comparisons *)

Lemma compare_cont_spec (p q : positive) :
  CompareSpec (p = q) (p < q)%positive (q < p)%positive (PosDef.Pos.compare_cont Eq p q).
Proof. exact (Pos.compare_spec p q). Qed.

Ltac cmp_cases :=
  repeat match goal with
  | |- context [Z.compare ?a ?b] => destruct (Z.compare_spec a b)
  | |- context [PosDef.Pos.compare_cont Eq ?a ?b] => destruct (compare_cont_spec a b)
  end.

Ltac float_order :=
  unfold ltb, eqb, SFltb, SFeqb;
  repeat match goal with a : float |- _ => destruct a as [[]|[]| |[] ? ?] end;
  cbn [SFcompare]; try discriminate; try reflexivity;
  cmp_cases; cbn [CompOpp]; try discriminate; try reflexivity; intros; subst;
  try discriminate; try reflexivity; try lia.

Lemma ltb_trans (a b c : float) : ltb a b = true -> ltb b c = true -> ltb a c = true.
Proof. float_order. Qed.

Lemma ltb_asym (a b : float) : ltb a b = true -> ltb b a = false.
Proof. float_order. Qed.

Lemma ltb_irrefl (a : float) : ltb a a = false.
Proof.
  destruct (ltb a a) eqn:E; [|reflexivity].
  now rewrite (ltb_asym _ _ E) in E.
Qed.

Lemma ltb_not_eqb (a b : float) : ltb a b = true -> eqb b a = false.
Proof. float_order. Qed.

Lemma eqb_ltb_trans (a b c : float) : eqb a b = true -> ltb b c = true -> ltb a c = true.
Proof. float_order. Qed.

Lemma f360_not_below_f90 : ltb f360 f90 = false.
Proof. reflexivity. Qed.

(** ** The selection loop *)

Section Selection.

Variable atan2f : float -> float -> float.
Variables mean l : vec2f.

Let ang (p : vec2f) : float := cand_angle atan2f mean l p.

(** What the loop leaves in [(closest, min_ang)]: either no candidate went
    below the bound it started with, or the candidate at [closest] is the
    first of those with the least angle. *)
Lemma select_loop_spec (pts : list vec2f) :
  forall idx closest m c' m',
    select_loop atan2f l (vec_sub l mean) pts idx closest m = (c', m') ->
    (c' = closest /\ m' = m /\
     forall q, In q pts -> coincides l q = false -> ltb (ang q) m = false)
    \/
    (exists k w,
        c' = idx + k /\ nth_error pts k = Some w /\ coincides l w = false /\
        m' = ang w /\ ltb (ang w) m = true /\
        forall j q, nth_error pts j = Some q -> coincides l q = false ->
                    ltb (ang q) (ang w) = false /\
                    (j < k -> eqb (ang q) (ang w) = false)).
Proof.
  induction pts as [|p rest IH]; intros idx closest m c' m' Hrun; cbn [select_loop] in Hrun.
  - left. injection Hrun as <- <-. repeat split. intros q [].
  - destruct (coincides l p) eqn:Hco.
    + (* skipped by [continue] *)
      destruct (IH _ _ _ _ _ Hrun)
        as [(-> & -> & Hnone) | (k & w & -> & Hk & Hw & -> & Hlt & Hmin)].
      * left. split; [reflexivity|]. split; [reflexivity|].
        intros q [<- | Hin] Hq; [congruence | auto].
      * right. exists (S k), w.
        split; [lia|]. do 4 (split; [assumption || reflexivity|]).
        intros [|j] q Hj Hq; cbn in Hj.
        -- injection Hj as ->. congruence.
        -- destruct (Hmin j q Hj Hq) as [H1 H2]. split; [exact H1|]. intros; apply H2; lia.
    + fold (cand_angle atan2f mean l p) in Hrun. fold (ang p) in Hrun.
      destruct (ltb (ang p) m) eqn:Hfire.
      * (* [min_ang = ang; closest = idx] *)
        destruct (IH _ _ _ _ _ Hrun)
          as [(-> & -> & Hnone) | (k & w & -> & Hk & Hw & -> & Hlt & Hmin)].
        -- right. exists 0, p.
           split; [lia|]. do 4 (split; [assumption || reflexivity|]).
           intros [|j] q Hj Hq; cbn in Hj.
           ++ injection Hj as ->. split; [apply ltb_irrefl | lia].
           ++ split; [|lia]. apply Hnone; [eapply nth_error_In; eauto | auto].
        -- right. exists (S k), w.
           split; [lia|]. do 3 (split; [assumption || reflexivity|]).
           split; [eapply ltb_trans; eauto|].
           intros [|j] q Hj Hq; cbn in Hj.
           ++ injection Hj as ->. split; [now apply ltb_asym|].
              intros _. now apply ltb_not_eqb.
           ++ destruct (Hmin j q Hj Hq) as [H1 H2]. split; [exact H1|]. intros; apply H2; lia.
      * (* the candidate does not improve on [min_ang] *)
        destruct (IH _ _ _ _ _ Hrun)
          as [(-> & -> & Hnone) | (k & w & -> & Hk & Hw & -> & Hlt & Hmin)].
        -- left. split; [reflexivity|]. split; [reflexivity|].
           intros q [<- | Hin] Hq; auto.
        -- right. exists (S k), w.
           split; [lia|]. do 4 (split; [assumption || reflexivity|]).
           intros [|j] q Hj Hq; cbn in Hj.
           ++ injection Hj as ->. split.
              ** destruct (ltb (ang q) (ang w)) eqn:E; [|reflexivity].
                 rewrite (ltb_trans _ _ _ E Hlt) in Hfire. discriminate.
              ** intros _.
                 destruct (eqb (ang q) (ang w)) eqn:E; [|reflexivity].
                 rewrite (eqb_ltb_trans _ _ _ E Hlt) in Hfire. discriminate.
           ++ destruct (Hmin j q Hj Hq) as [H1 H2]. split; [exact H1|]. intros; apply H2; lia.
Qed.

End Selection.

(** ** The closure loop *)

Lemma removelast_length (ls : list vec2f) : length (removelast ls) = length ls - 1.
Proof.
  induction ls as [|a [|b tl] IH]; cbn in *; try reflexivity.
  rewrite IH. lia.
Qed.

Lemma chain_split_last (ls : list vec2f) (lastv : vec2f) :
  nth_error ls (length ls - 1) = Some lastv -> ls = removelast ls ++ [lastv].
Proof.
  induction ls as [|a [|b tl] IH]; intros H.
  - discriminate.
  - cbn in H. injection H as ->. reflexivity.
  - change (removelast (a :: b :: tl)) with (a :: removelast (b :: tl)).
    cbn [app]. f_equal. apply IH.
    cbn [length] in *. replace (S (S (length tl)) - 1) with (S (S (length tl) - 1)) in H by lia.
    exact H.
Qed.

Lemma closure_scan_no_match (lastv : vec2f) (earlier : list vec2f) :
  forall idx,
    closure_scan lastv earlier idx = ScanNoMatch <->
    Forall (fun v => vec_eq lastv v = false) earlier.
Proof.
  induction earlier as [|v rest IH]; intros idx; cbn.
  - split; auto.
  - destruct (vec_eq lastv v) eqn:E.
    + split.
      * destruct (idx =? 0); discriminate.
      * intros H. inversion H; subst. congruence.
    + rewrite IH. split; intros H.
      * constructor; auto.
      * now inversion H.
Qed.

(** The loop stops at the first element equal to the last one. *)
Lemma closure_scan_first (lastv : vec2f) (pre : list vec2f) (v : vec2f) (post : list vec2f) :
  forall idx,
    Forall (fun u => vec_eq lastv u = false) pre ->
    vec_eq lastv v = true ->
    closure_scan lastv (pre ++ v :: post) idx =
      if idx + length pre =? 0 then ScanReturn else ScanErase (idx + length pre).
Proof.
  induction pre as [|u pre IH]; intros idx Hpre Hv; cbn.
  - rewrite Hv, Nat.add_0_r. reflexivity.
  - inversion Hpre as [|? ? Hu Hpre']; subst. rewrite Hu.
    rewrite IH by assumption.
    replace (S idx + length pre) with (idx + S (length pre)) by lia.
    reflexivity.
Qed.

Lemma closure_scan_inv (lastv : vec2f) (earlier : list vec2f) :
  forall idx k,
    closure_scan lastv earlier idx = ScanErase k ->
    exists pre v post,
      earlier = pre ++ v :: post /\ k = idx + length pre /\ k <> 0 /\
      vec_eq lastv v = true /\ Forall (fun u => vec_eq lastv u = false) pre.
Proof.
  induction earlier as [|u rest IH]; intros idx k H; cbn in H; [discriminate|].
  destruct (vec_eq lastv u) eqn:E.
  - destruct (idx =? 0) eqn:E0; [discriminate|]. injection H as <-.
    apply Nat.eqb_neq in E0.
    exists [], u, rest. cbn. repeat split; auto; lia.
  - destruct (IH _ _ H) as (pre & v & post & -> & -> & Hk & Hv & Hpre).
    exists (u :: pre), v, post. cbn. repeat split; auto; lia.
Qed.

Lemma first_match_split (ls : list vec2f) (idx : nat) :
  first_match ls idx ->
  exists lastv pre v post,
    nth_error ls (length ls - 1) = Some lastv /\
    removelast ls = pre ++ v :: post /\ length pre = idx /\
    vec_eq lastv v = true /\ Forall (fun u => vec_eq lastv u = false) pre.
Proof.
  intros (lastv & v & Hlast & Hidx & Hv & Heq & Hfirst).
  pose proof (chain_split_last _ Hlast) as Hsplit.
  assert (Hlen : length (removelast ls) = length ls - 1) by apply removelast_length.
  assert (Hv' : nth_error (removelast ls) idx = Some v).
  { rewrite Hsplit in Hv. rewrite nth_error_app1 in Hv by lia. exact Hv. }
  destruct (nth_error_split _ _ Hv') as (pre & post & Hrl & Hpre).
  exists lastv, pre, v, post. repeat split; auto.
  apply Forall_forall. intros u Hu.
  destruct (In_nth_error _ _ Hu) as (j & Hj).
  assert (j < length pre) by (apply nth_error_Some; congruence).
  apply (Hfirst j u); [lia|].
  rewrite Hsplit, Hrl. rewrite <- app_assoc.
  rewrite nth_error_app1 by lia. exact Hj.
Qed.

Lemma closure_check_first_match (ls : list vec2f) (idx : nat) :
  first_match ls idx ->
  closure_check ls = if idx =? 0 then ScanReturn else ScanErase idx.
Proof.
  intros H.
  assert (Hlen : 1 < length ls) by (destruct H as (? & ? & _ & ? & _); lia).
  destruct (first_match_split H) as (lastv & pre & v & post & Hlast & Hrl & Hpre & Hv & Hnone).
  unfold closure_check.
  apply Nat.ltb_lt in Hlen. rewrite Hlen, Hlast, Hrl.
  rewrite closure_scan_first by assumption. cbn. now rewrite Hpre.
Qed.

(** ** One call of [SolverStep] *)

Section Step.

Variable atan2f : float -> float -> float.
Variable points : list vec2f.
Variable mean : vec2f.

Lemma select_cases (l : vec2f) :
  (select atan2f points mean l = (0, f360) /\
   forall q, In q points -> coincides l q = false ->
             ltb (cand_angle atan2f mean l q) f360 = false)
  \/
  (selects_first_least atan2f points mean l /\
   ltb (snd (select atan2f points mean l)) f360 = true).
Proof.
  unfold selects_first_least.
  destruct (select atan2f points mean l) as [c m] eqn:Hsel.
  unfold select in Hsel.
  destruct (select_loop_spec atan2f mean l points _ _ _ Hsel)
    as [(-> & -> & Hnone) | (k & w & -> & Hk & Hw & -> & Hlt & Hmin)].
  - left. split; [reflexivity | exact Hnone].
  - right. cbn [snd plus]. split; [|exact Hlt].
    exists w. repeat split; auto; apply (Hmin j q); auto.
Qed.

Lemma select_in_range (l : vec2f) :
  points <> [] -> fst (select atan2f points mean l) < length points.
Proof.
  intros Hne. destruct (select_cases l) as [[-> _] | [Hsel _]].
  - cbn. destruct points; [congruence | cbn; lia].
  - unfold selects_first_least in Hsel.
    destruct (select atan2f points mean l) as [c m].
    destruct Hsel as (w & Hw & _). cbn. apply nth_error_Some. congruence.
Qed.

(** Lines 191-211 for a chain whose last element is [l]. *)
Lemma extend_last (ls0 : list vec2f) (l : vec2f) :
  nth_error ls0 (length ls0 - 1) = Some l ->
  extend atan2f points mean ls0 =
    let '(closest, min_ang) := select atan2f points mean l in
    match nth_error points closest with
    | None => None
    | Some w =>
        Some (if ltb min_ang f90 && (length ls0 =? 1) then [w] else ls0 ++ [w])
    end.
Proof.
  intros Hl. destruct ls0 as [|a tl]; [discriminate|].
  unfold extend. rewrite Hl.
  destruct (select atan2f points mean l) as [c m].
  destruct (nth_error points c) as [w|]; [|reflexivity].
  destruct tl as [|b tl].
  - destruct (ltb m f90); reflexivity.
  - replace (length (a :: b :: tl) - 1 =? 0) with false by reflexivity.
    replace (length (a :: b :: tl) =? 1) with false by reflexivity.
    now rewrite !andb_false_r.
Qed.

Lemma SolverStep_at_selection (ls ls0 : list vec2f) :
  chain_at_selection ls = Some ls0 ->
  SolverStep atan2f points mean ls =
    match extend atan2f points mean ls0 with
    | Some ls' => Some (true, ls')
    | None => None
    end.
Proof.
  unfold chain_at_selection, SolverStep.
  destruct (closure_check ls); intros H; try discriminate; now injection H as <-.
Qed.

Lemma SolverStep_false (ls ls' : list vec2f) :
  SolverStep atan2f points mean ls = Some (false, ls') ->
  closure_check ls = ScanReturn /\ ls' = ls.
Proof.
  unfold SolverStep. destruct (closure_check ls).
  - intros H. injection H as <-. auto.
  - destruct (extend _ _ _ _); discriminate.
  - destruct (extend _ _ _ _); discriminate.
Qed.

Lemma run_after_false (ls : list vec2f) :
  SolverStep atan2f points mean ls = Some (false, ls) ->
  forall n, run atan2f points mean (S n) ls = Some (false, ls).
Proof.
  intros H. induction n as [|n IH].
  - exact H.
  - change (run atan2f points mean (S (S n)) ls)
      with (match run atan2f points mean (S n) ls with
            | Some (_, ls1) => SolverStep atan2f points mean ls1
            | None => None
            end).
    rewrite IH. exact H.
Qed.

(** With an empty point set every call that does not return [false] reads
    [points[0]] out of range. *)
Lemma SolverStep_empty_points (ls : list vec2f) :
  points = [] -> closure_check ls <> ScanReturn ->
  SolverStep atan2f points mean ls = None.
Proof.
  intros -> Hc. unfold SolverStep.
  assert (He : forall l0, extend atan2f [] mean l0 = None).
  { intros [|a tl]; [reflexivity|]. unfold extend.
    destruct (nth_error (a :: tl) (length (a :: tl) - 1)); reflexivity. }
  destruct (closure_check ls); [congruence | now rewrite He | now rewrite He].
Qed.

Lemma skipn_last (idx : nat) (ls : list vec2f) (l : vec2f) :
  idx < length ls - 1 ->
  nth_error ls (length ls - 1) = Some l ->
  nth_error (skipn (S idx) ls) (length (skipn (S idx) ls) - 1) = Some l.
Proof.
  intros Hidx Hl. rewrite length_skipn, nth_error_skipn.
  replace (S idx + (length ls - S idx - 1)) with (length ls - 1) by lia.
  exact Hl.
Qed.

End Step.

(** ** Selection (lines 191-209) *)









(** ** Closure and pruning (lines 171-182) *)

(** C2.  If the chain has at least two elements and its last element equals
    its element at index 0, [SolverStep] returns [false] and leaves the chain
    as it is; and whenever a call has returned [false], the chain is
    unchanged and every further call returns [false] with the same chain. *)
Theorem C2_done_is_idempotent :
  forall (atan2f : float -> float -> float) points mean ls,
    (2 <= length ls -> first_match ls 0 ->
     SolverStep atan2f points mean ls = Some (false, ls))
    /\
    (forall ls', SolverStep atan2f points mean ls = Some (false, ls') ->
                 ls' = ls /\
                 forall n, run atan2f points mean (S n) ls = Some (false, ls)).
Proof.
  intros atan2f points mean ls. split.
  - intros _ Hm. unfold SolverStep.
    now rewrite (closure_check_first_match Hm).
  - intros ls' H. destruct (SolverStep_false _ _ _ _ H) as [_ ->].
    split; [reflexivity|]. now apply run_after_false.
Qed.

Lemma C2_done_witness :
  SolverStep atan2f_table square origin [pE; pN; pW; pS; pE]
  = Some (false, [pE; pN; pW; pS; pE]) /\
  forall n, run atan2f_table square origin (S n) [pE; pN; pW; pS; pE]
            = Some (false, [pE; pN; pW; pS; pE]).
Proof.
  destruct (C2_done_is_idempotent atan2f_table square origin [pE; pN; pW; pS; pE])
    as [Hdone Hidem].
  assert (H : SolverStep atan2f_table square origin [pE; pN; pW; pS; pE]
              = Some (false, [pE; pN; pW; pS; pE])).
  { apply Hdone; [cbn; lia|].
    exists pE, pE. cbn. repeat split; lia. }
  split; [exact H | apply (Hidem _ H)].
Defined.

(** C3.  If the chain has at least two elements and the first earlier
    element equal to its last one is at an index [idx > 0], [SolverStep]
    erases the elements [0 .. idx], runs the selection on what is left,
    [Chain[idx+1 ..]], whose last element is still the old last one, and,
    the point set being non-empty, returns [true] with the selected point
    appended (or, when a single element is left and the least angle is
    below 90, put in its place). *)
Theorem C3_prune_then_select :
  forall (atan2f : float -> float -> float) points mean ls idx,
    2 <= length ls -> first_match ls idx -> 0 < idx -> points <> [] ->
    chain_at_selection ls = Some (skipn (S idx) ls) /\
    exists l w,
      nth_error ls (length ls - 1) = Some l /\
      nth_error points (fst (select atan2f points mean l)) = Some w /\
      SolverStep atan2f points mean ls =
        Some (true,
              if ltb (snd (select atan2f points mean l)) f90
                 && (length (skipn (S idx) ls) =? 1)
              then [w] else skipn (S idx) ls ++ [w]).
Proof.
  intros atan2f points mean ls idx _ Hm Hidx Hne.
  assert (Hsel : chain_at_selection ls = Some (skipn (S idx) ls)).
  { unfold chain_at_selection. rewrite (closure_check_first_match Hm).
    destruct idx; [lia | reflexivity]. }
  split; [exact Hsel|].
  destruct Hm as (l & v & Hl & Hlt & _).
  pose proof (select_in_range atan2f mean l Hne) as Hc.
  destruct (nth_error points (fst (select atan2f points mean l))) as [w|] eqn:Hw;
    [|apply nth_error_None in Hw; lia].
  exists l, w. split; [exact Hl|]. split; [exact Hw|].
  rewrite (SolverStep_at_selection atan2f points mean _ Hsel).
  rewrite (extend_last atan2f points mean _ (skipn_last _ Hlt Hl)).
  destruct (select atan2f points mean l) as [c m]. cbn [fst snd] in *.
  now rewrite Hw.
Qed.

Lemma C3_prune_witness :
  chain_at_selection [pS; pE; pN; pE] = Some [pN; pE] /\
  exists l w,
    nth_error [pS; pE; pN; pE] 3 = Some l /\
    nth_error square (fst (select atan2f_table square origin l)) = Some w /\
    SolverStep atan2f_table square origin [pS; pE; pN; pE] =
      Some (true,
            if ltb (snd (select atan2f_table square origin l)) f90
               && (length [pN; pE] =? 1)
            then [w] else [pN; pE] ++ [w]).
Proof.
  apply (@C3_prune_then_select atan2f_table square origin [pS; pE; pN; pE] 1).
  - cbn; lia.
  - exists pE, pE. cbn. repeat split; try lia.
    intros j u Hj Hu. assert (j = 0) by lia. subst j. cbn in Hu.
    injection Hu as <-. vm_compute; reflexivity.
  - lia.
  - discriminate.
Defined.

(** C4 (amended).  On a chain [A, B, C, B] whose last element is equal to
    the [B] at index 1 and not to [A], the call erases the elements at
    indices 0 and 1: the selection runs on [C, B], and the chain it leaves
    is [C, B, w] for the selected point [w]. *)
Theorem C4_prune_keeps_suffix :
  forall (atan2f : float -> float -> float) points mean A B C,
    vec_eq B A = false -> vec_eq B B = true ->
    chain_at_selection [A; B; C; B] = Some [C; B] /\
    forall w,
      nth_error points (fst (select atan2f points mean B)) = Some w ->
      SolverStep atan2f points mean [A; B; C; B] = Some (true, [C; B; w]).
Proof.
  intros atan2f points mean A B C HBA HBB.
  assert (Hsel : chain_at_selection [A; B; C; B] = Some [C; B]).
  { unfold chain_at_selection, closure_check. cbn. now rewrite HBA, HBB. }
  split; [exact Hsel|]. intros w Hw.
  rewrite (SolverStep_at_selection atan2f points mean _ Hsel).
  rewrite (@extend_last atan2f points mean [C; B] B eq_refl).
  destruct (select atan2f points mean B) as [c m]. cbn [fst] in Hw.
  rewrite Hw. cbn. now rewrite andb_false_r.
Qed.

Lemma C4_prune_witness :
  chain_at_selection [pS; pE; pN; pE] = Some [pN; pE] /\
  forall w,
    nth_error square (fst (select atan2f_table square origin pE)) = Some w ->
    SolverStep atan2f_table square origin [pS; pE; pN; pE] = Some (true, [pN; pE; w]).
Proof.
  apply (@C4_prune_keeps_suffix atan2f_table square origin pS pE pN);
    vm_compute; reflexivity.
Defined.

(** C4 as stated fails.  With A = (0,-1), B = (1,0), C = (0,1), pairwise
    different under [operator==], the chain [A, B, C, B] is pruned to
    [C, B], not to [B], and the call leaves [C, B, C]. *)
Lemma C4_prune_counterexample :
  GenerateData_mean 4 square = origin /\
  vec_eq pS pE = false /\ vec_eq pS pN = false /\ vec_eq pE pN = false /\
  vec_eq pE pS = false /\ vec_eq pN pS = false /\ vec_eq pN pE = false /\
  chain_at_selection [pS; pE; pN; pE] = Some [pN; pE] /\
  chain_at_selection [pS; pE; pN; pE] <> Some [pE] /\
  SolverStep atan2f_table square origin [pS; pE; pN; pE] = Some (true, [pN; pE; pN]).
Proof.
  repeat split; try (vm_compute; reflexivity).
  vm_compute. discriminate.
Qed.

(** ** Replacing or appending (lines 210-211) *)

(** C5.  Let the selection run on a non-empty chain with last element [l],
    and let [w] be the point at the index [closest] it leaves, [min_ang]
    being the least angle it leaves.  If the chain has exactly one element
    and [min_ang] is below 90, the call returns [true] and the chain becomes
    [[w]], of length 1; [w] is then a candidate that does not coincide with
    [l] and [min_ang] is its remapped angle.  In every other case the call
    returns [true] with [w] appended. *)
Theorem C5_replace_or_append :
  forall (atan2f : float -> float -> float) points mean ls ls0 l w,
    chain_at_selection ls = Some ls0 ->
    nth_error ls0 (length ls0 - 1) = Some l ->
    nth_error points (fst (select atan2f points mean l)) = Some w ->
    (length ls0 = 1 ->
     ltb (snd (select atan2f points mean l)) f90 = true ->
     SolverStep atan2f points mean ls = Some (true, [w]) /\
     coincides l w = false /\
     cand_angle atan2f mean l w = snd (select atan2f points mean l))
    /\
    (~ (length ls0 = 1 /\ ltb (snd (select atan2f points mean l)) f90 = true) ->
     SolverStep atan2f points mean ls = Some (true, ls0 ++ [w])).
Proof.
  intros atan2f points mean ls ls0 l w Hsel Hl Hw.
  rewrite (SolverStep_at_selection atan2f points mean _ Hsel).
  rewrite (extend_last atan2f points mean _ Hl).
  pose proof (select_cases atan2f points mean l) as Hcases.
  unfold selects_first_least in Hcases.
  destruct (select atan2f points mean l) as [c m]. cbn [fst snd] in *.
  rewrite Hw. split.
  - intros Hlen Hm. rewrite Hm, Hlen. cbn. split; [reflexivity|].
    destruct Hcases as [[Hdef _] | [(w' & Hw' & Hco & Hang & _) _]].
    + injection Hdef as _ ->. rewrite f360_not_below_f90 in Hm. discriminate.
    + rewrite Hw in Hw'. injection Hw' as <-. auto.
  - intros Hnot.
    destruct (ltb m f90) eqn:Hm; [|reflexivity].
    destruct (length ls0 =? 1) eqn:Hlen; [|reflexivity].
    apply Nat.eqb_eq in Hlen. exfalso. auto.
Qed.

Lemma C5_replace_or_append_witness :
  (SolverStep atan2f_table [pE; pNE] origin [pE] = Some (true, [pNE]) /\
   coincides pE pNE = false /\
   cand_angle atan2f_table origin pE pNE = snd (select atan2f_table [pE; pNE] origin pE))
  /\
  SolverStep atan2f_table square origin [pE] = Some (true, [pE] ++ [pN]).
Proof.
  split.
  - apply (@C5_replace_or_append atan2f_table [pE; pNE] origin [pE] [pE] pE pNE);
      vm_compute; reflexivity.
  - apply (@C5_replace_or_append atan2f_table square origin [pE] [pE] pE pN);
      try (vm_compute; reflexivity).
    intros [_ H]. vm_compute in H. discriminate.
Defined.

(** ** No candidate (lines 193-211) *)

(** C6 (amended).  If every point of a non-empty point set coincides with
    the last vertex [l] of the chain the selection runs on, no candidate is
    found, [closest] and [min_ang] keep their initial values 0 and 360, and
    the call returns [true] with [points[0]] appended to the chain: there is
    no failure result. *)
Theorem C6_no_candidate_appends_first_point :
  forall (atan2f : float -> float -> float) points mean ls ls0 l p0,
    chain_at_selection ls = Some ls0 ->
    nth_error ls0 (length ls0 - 1) = Some l ->
    (forall q, In q points -> coincides l q = true) ->
    nth_error points 0 = Some p0 ->
    select atan2f points mean l = (0, f360) /\
    SolverStep atan2f points mean ls = Some (true, ls0 ++ [p0]).
Proof.
  intros atan2f points mean ls ls0 l p0 Hsel Hl Hall Hp0.
  assert (Hs : select atan2f points mean l = (0, f360)).
  { destruct (select_cases atan2f points mean l) as [[H _] | [H _]]; [exact H|].
    unfold selects_first_least in H.
    destruct (select atan2f points mean l) as [c m].
    destruct H as (w & Hw & Hco & _).
    rewrite (Hall w (nth_error_In _ _ Hw)) in Hco. discriminate. }
  split; [exact Hs|].
  rewrite (SolverStep_at_selection atan2f points mean _ Hsel).
  rewrite (extend_last atan2f points mean _ Hl), Hs, Hp0.
  now rewrite f360_not_below_f90.
Qed.

Lemma C6_no_candidate_witness :
  select atan2f_table [pE] pE pE = (0, f360) /\
  SolverStep atan2f_table [pE] pE [pE] = Some (true, [pE] ++ [pE]).
Proof.
  apply (@C6_no_candidate_appends_first_point atan2f_table [pE] pE [pE] [pE] pE pE);
    try reflexivity.
  intros q [<- | []]. vm_compute; reflexivity.
Defined.

(** C6 as stated fails.  With the singleton point set {(1,0)} and the chain
    [(1,0)], every point coincides with the last vertex; the call does not
    fail: it returns [true] and the chain becomes [(1,0), (1,0)]. *)
Lemma C6_no_candidate_counterexample :
  GenerateData_mean 1 [pE] = pE /\
  (forall q, In q [pE] -> coincides pE q = true) /\
  SolverStep atan2f_table [pE] pE [pE] = Some (true, [pE; pE]) /\
  [pE; pE] <> [pE].
Proof.
  split; [vm_compute; reflexivity|].
  split; [intros q [<- | []]; vm_compute; reflexivity|].
  split; [vm_compute; reflexivity | discriminate].
Qed.

(** ** Equality of points *)

Lemma sub_diag (a : float) : is_finite a = true -> sub a a = zero.
Proof.
  destruct a as [[]|s| |s m e]; try discriminate; try reflexivity.
  intros _. unfold sub, SFsub. cbv zeta. now rewrite Z.sub_diag.
Qed.

Lemma vec_sub_diag (a : vec2f) : vec_finite a = true -> vec_sub a a = mkvec zero zero.
Proof.
  unfold vec_finite, vec_sub. intros H. apply andb_prop in H as [Hx Hy].
  now rewrite !sub_diag.
Qed.

(** A point with finite coordinates is equal to itself under [operator==]. *)
Lemma vec_eq_refl (a : vec2f) : vec_finite a = true -> vec_eq a a = true.
Proof.
  unfold vec_finite, vec_eq. intros H. apply andb_prop in H as [Hx Hy].
  rewrite !sub_diag by assumption. reflexivity.
Qed.

(** Only a point with finite coordinates is equal to itself. *)
Lemma vec_eq_self_finite (a : vec2f) : vec_eq a a = true -> vec_finite a = true.
Proof.
  unfold vec_eq, vec_finite. intros H. apply andb_prop in H as [Hx Hy].
  apply andb_true_intro. split.
  - destruct (x a) as [[]|[]| |s m e]; try reflexivity; discriminate.
  - destruct (y a) as [[]|[]| |s m e]; try reflexivity; discriminate.
Qed.

(** ... and is skipped as a candidate when it is the last vertex. *)
Lemma coincides_refl (a : vec2f) : vec_finite a = true -> coincides a a = true.
Proof.
  intros H. unfold coincides. rewrite vec_sub_diag by assumption. reflexivity.
Qed.

Lemma pairwise_distinct_In (points : list vec2f) :
  pairwise_distinctb points = true ->
  forall p q, In p points -> In q points -> vec_eq p q = true -> p = q.
Proof.
  induction points as [|a rest IH]; intros Hd p q Hp Hq Heq; [contradiction|].
  cbn in Hd. apply andb_prop in Hd as [Ha Hrest].
  rewrite forallb_forall in Ha.
  destruct Hp as [<- | Hp], Hq as [<- | Hq]; auto.
  - specialize (Ha q Hq). rewrite Heq in Ha. discriminate.
  - specialize (Ha p Hp). rewrite Heq, andb_false_r in Ha. discriminate.
Qed.

(** ** Lists *)

Lemma ordpairs_nth (R : vec2f -> vec2f -> Prop) (ls : list vec2f) :
  ForallOrdPairs R ls ->
  forall i j a b, i < j -> nth_error ls i = Some a -> nth_error ls j = Some b -> R a b.
Proof.
  induction 1 as [|c ls Hc _ IH]; intros i j a b Hij Ha Hb.
  - destruct i; discriminate.
  - destruct j as [|j]; [lia|]. cbn in Hb.
    destruct i as [|i]; cbn in Ha.
    + injection Ha as <-. rewrite Forall_forall in Hc.
      apply Hc. eapply nth_error_In; eauto.
    + apply (IH i j); auto; lia.
Qed.

Lemma ordpairs_cons_inv (R : vec2f -> vec2f -> Prop) (a : vec2f) (ls : list vec2f) :
  ForallOrdPairs R (a :: ls) -> Forall (R a) ls /\ ForallOrdPairs R ls.
Proof. intros H. inversion H; subst. now split. Qed.

Lemma ordpairs_snoc (R : vec2f -> vec2f -> Prop) (ls : list vec2f) (z : vec2f) :
  ForallOrdPairs R ls -> Forall (fun a => R a z) ls -> ForallOrdPairs R (ls ++ [z]).
Proof.
  induction 1 as [|c ls Hc Hls IH]; intros Hz; cbn.
  - constructor; constructor.
  - inversion Hz as [|? ? Hcz Hz']; subst.
    constructor; [|auto].
    apply Forall_app. split; [exact Hc | constructor; [exact Hcz | constructor]].
Qed.

Lemma ordpairs_app_inv (R : vec2f -> vec2f -> Prop) (pre post : list vec2f) :
  ForallOrdPairs R (pre ++ post) ->
  ForallOrdPairs R post /\
  forall a b, In a pre -> In b post -> R a b.
Proof.
  induction pre as [|c pre IH]; cbn; intros H.
  - split; [exact H | intros a b []].
  - inversion H as [|? ? Hc Hrest]; subst.
    destruct (IH Hrest) as [Hpost Hcross]. split; [exact Hpost|].
    intros a b [<- | Ha] Hb; [|auto].
    rewrite Forall_forall in Hc. apply Hc. apply in_or_app. now right.
Qed.

Lemma ordpairs_nodup (ls : list vec2f) :
  eps_nodup ls -> (forall v, In v ls -> vec_eq v v = true) -> NoDup ls.
Proof.
  induction 1 as [|c ls Hc _ IH]; intros Hrefl; constructor.
  - intros Hin. rewrite Forall_forall in Hc.
    pose proof (Hrefl c (or_introl eq_refl)) as Hcc.
    rewrite (Hc c Hin) in Hcc. discriminate.
  - apply IH. intros v Hv. apply Hrefl. now right.
Qed.

Lemma adjacent_all_skipn (R : vec2f -> vec2f -> Prop) (n : nat) :
  forall ls, adjacent_all R ls -> adjacent_all R (skipn n ls).
Proof.
  induction n as [|n IH]; intros ls H; [exact H|].
  destruct ls as [|a [|b tl]]; cbn [skipn]; try exact I.
  - destruct n; exact I.
  - apply IH. exact (proj2 H).
Qed.

Lemma adjacent_all_snoc (R : vec2f -> vec2f -> Prop) (ls : list vec2f) (l w : vec2f) :
  adjacent_all R ls -> nth_error ls (length ls - 1) = Some l -> R l w ->
  adjacent_all R (ls ++ [w]).
Proof.
  induction ls as [|a [|b tl] IH]; intros Hadj Hl HR.
  - discriminate.
  - cbn in Hl. injection Hl as ->. cbn. auto.
  - destruct Hadj as [Hab Htl]. split; [exact Hab|].
    apply IH; auto.
    cbn [length] in *. replace (S (S (length tl)) - 1) with (S (S (length tl) - 1)) in Hl by lia.
    exact Hl.
Qed.

Lemma adjacent_all_nth (R : vec2f -> vec2f -> Prop) (ls : list vec2f) :
  adjacent_all R ls ->
  forall i a b, nth_error ls i = Some a -> nth_error ls (S i) = Some b -> R a b.
Proof.
  induction ls as [|c [|d tl] IH]; intros Hadj i a b Ha Hb.
  - destruct i; discriminate.
  - destruct i; discriminate.
  - destruct Hadj as [Hcd Htl]. destruct i as [|i].
    + cbn in Ha, Hb. injection Ha as <-. injection Hb as <-. exact Hcd.
    + apply (IH Htl i); assumption.
Qed.

(** ** Invariants of the chain *)

Section Invariants.

Variable atan2f : float -> float -> float.
Variable points : list vec2f.
Variable mean : vec2f.

Lemma SolverStep_true (ls ls' : list vec2f) :
  SolverStep atan2f points mean ls = Some (true, ls') ->
  exists ls0, chain_at_selection ls = Some ls0 /\
              extend atan2f points mean ls0 = Some ls'.
Proof.
  unfold SolverStep, chain_at_selection.
  destruct (closure_check ls) as [|idx|]; [discriminate| |].
  - destruct (extend _ _ _ _) as [l1|] eqn:E; [|discriminate].
    intros H. injection H as <-. eauto.
  - destruct (extend _ _ _ _) as [l1|] eqn:E; [|discriminate].
    intros H. injection H as <-. eauto.
Qed.

(** The three ways lines 185-211 change the chain. *)
Lemma extend_cases (ls0 ls' : list vec2f) :
  extend atan2f points mean ls0 = Some ls' ->
  (ls0 = [] /\ exists p0, nth_error points 0 = Some p0 /\ ls' = [p0])
  \/
  (exists l w,
      nth_error ls0 (length ls0 - 1) = Some l /\
      nth_error points (fst (select atan2f points mean l)) = Some w /\
      (ls' = [w] \/ ls' = ls0 ++ [w])).
Proof.
  destruct ls0 as [|a tl].
  - unfold extend. destruct (nth_error points 0) as [p0|]; [|discriminate].
    intros H. injection H as <-. left. eauto.
  - intros H. right.
    destruct (nth_error (a :: tl) (length (a :: tl) - 1)) as [l|] eqn:Hl.
    + rewrite (extend_last atan2f points mean _ Hl) in H.
      destruct (select atan2f points mean l) as [c m] eqn:Hs.
      destruct (nth_error points c) as [w|] eqn:Hw; [|discriminate].
      injection H as <-. exists l, w.
      split; [reflexivity|]. split; [now rewrite Hs|].
      match goal with |- context [if ?c then _ else _] => destruct c end; auto.
    + apply nth_error_None in Hl. cbn [length] in Hl. lia.
Qed.

Lemma chain_at_selection_suffix (ls ls0 : list vec2f) :
  chain_at_selection ls = Some ls0 -> exists n, ls0 = skipn n ls.
Proof.
  unfold chain_at_selection. destruct (closure_check ls) as [|idx|]; intros H.
  - discriminate.
  - injection H as <-. now exists (S idx).
  - injection H as <-. now exists 0.
Qed.

Lemma Forall_skipn (P : vec2f -> Prop) (n : nat) (ls : list vec2f) :
  Forall P ls -> Forall P (skipn n ls).
Proof.
  intros H. rewrite Forall_forall in *. intros v Hv. apply H.
  rewrite <- (firstn_skipn n ls). apply in_or_app. now right.
Qed.

(** After the closure check no element of the chain is equal to an
    earlier one, provided this held of the chain without its last
    element and the points are pairwise distinct. *)
Lemma chain_at_selection_nodup (ls ls0 : list vec2f) :
  pairwise_distinctb points = true ->
  Forall (fun v => In v points) ls ->
  eps_nodup (removelast ls) ->
  chain_at_selection ls = Some ls0 ->
  eps_nodup ls0.
Proof.
  intros Hd Hin Hnd. unfold chain_at_selection, closure_check.
  destruct (1 <? length ls) eqn:Hlen.
  - destruct (nth_error ls (length ls - 1)) as [lastv|] eqn:Hlast.
    + pose proof (chain_split_last _ Hlast) as Hsplit.
      destruct (closure_scan lastv (removelast ls) 0) as [|idx|] eqn:Hscan; intros H.
      * discriminate.
      * injection H as <-.
        destruct (closure_scan_inv _ _ _ Hscan)
          as (pre & v & post & Hrl & Hidx & _ & Hv & _).
        cbn in Hidx. subst idx.
        assert (Hls : ls = (pre ++ [v]) ++ post ++ [lastv]).
        { rewrite Hsplit at 1. rewrite Hrl. rewrite <- !app_assoc. reflexivity. }
        unfold erase_prefix.
        replace (skipn (S (length pre)) ls) with (post ++ [lastv]).
        2:{ rewrite Hls at 1. rewrite skipn_app.
            replace (S (length pre)) with (length (pre ++ [v]))
              by (rewrite length_app; cbn; lia).
            rewrite skipn_all, Nat.sub_diag. reflexivity. }
        rewrite Hrl in Hnd.
        destruct (@ordpairs_app_inv _ pre (v :: post) Hnd) as [Hvpost _].
        destruct (ordpairs_cons_inv Hvpost) as [Hv_post Hpost].
        apply ordpairs_snoc; [exact Hpost|].
        rewrite Forall_forall in Hin, Hv_post. apply Forall_forall. intros u Hu.
        destruct (vec_eq lastv u) eqn:E; [|reflexivity].
        assert (Hl_in : In lastv points).
        { apply Hin. rewrite Hsplit. apply in_or_app. right. now left. }
        assert (Hu_in : In u points).
        { apply Hin. rewrite Hls. apply in_or_app. right. apply in_or_app. now left. }
        assert (Hv_in : In v points).
        { apply Hin. rewrite Hls. apply in_or_app. left. apply in_or_app. right. now left. }
        pose proof (pairwise_distinct_In _ Hd _ _ Hl_in Hu_in E) as <-.
        pose proof (pairwise_distinct_In _ Hd _ _ Hl_in Hv_in Hv) as <-.
        rewrite (Hv_post _ Hu) in Hv. discriminate.
      * injection H as <-. rewrite Hsplit.
        apply ordpairs_snoc; [exact Hnd|].
        now apply closure_scan_no_match in Hscan.
    + intros H. injection H as <-.
      apply nth_error_None in Hlast. apply Nat.ltb_lt in Hlen. lia.
  - intros H. injection H as <-. apply Nat.ltb_ge in Hlen.
    destruct ls as [|a [|b tl]]; [constructor | | cbn in Hlen; lia].
    constructor; constructor.
Qed.

Lemma SolverStep_chain_inv (ls ls' : list vec2f) (b : bool) :
  pairwise_distinctb points = true ->
  chain_inv points ls ->
  SolverStep atan2f points mean ls = Some (b, ls') ->
  chain_inv points ls'.
Proof.
  intros Hd [Hin Hnd] Hstep. destruct b.
  - pose proof Hstep as Hs. apply SolverStep_true in Hs.
    destruct Hs as (ls0 & Hsel & Hext).
    pose proof (chain_at_selection_nodup Hd Hin Hnd Hsel) as Hnd0.
    assert (Hin0 : Forall (fun v => In v points) ls0).
    { pose proof Hsel as Hs. apply chain_at_selection_suffix in Hs.
      destruct Hs as [n ->]. now apply Forall_skipn. }
    apply extend_cases in Hext. destruct Hext
      as [(-> & p0 & Hp0 & ->) | (l & w & Hl & Hw & [-> | ->])].
    + split; [|constructor].
      constructor; [eapply nth_error_In; eauto | constructor].
    + split; [|constructor].
      constructor; [eapply nth_error_In; eauto | constructor].
    + split.
      * apply Forall_app. split; [exact Hin0|].
        constructor; [eapply nth_error_In; eauto | constructor].
      * now rewrite removelast_last.
  - apply SolverStep_false in Hstep as [_ ->]. now split.
Qed.

Lemma run_chain_inv (n : nat) :
  pairwise_distinctb points = true ->
  forall b ls, run atan2f points mean n [] = Some (b, ls) -> chain_inv points ls.
Proof.
  intros Hd. induction n as [|n IH]; intros b ls H; cbn in H.
  - injection H as _ <-. split; constructor.
  - destruct (run atan2f points mean n []) as [[b1 ls1]|]; [|discriminate].
    eapply SolverStep_chain_inv; eauto.
Qed.

Lemma selected_follows (l w : vec2f) :
  selected_from atan2f points mean l w -> follows atan2f points mean l w.
Proof.
  unfold selected_from, follows. intros Hw.
  destruct (select_cases atan2f points mean l) as [[Hdef _] | [Hfl _]].
  - right. rewrite Hdef in Hw. cbn in Hw. auto.
  - left. unfold selects_first_least in Hfl.
    destruct (select atan2f points mean l) as [c m]. cbn [fst] in Hw.
    destruct Hfl as (w' & Hw' & Hco & _). congruence.
Qed.

(** A relation that holds between a last vertex and the point selected from
    it holds between all consecutive vertices of the chains a call leaves. *)
Lemma SolverStep_adjacent (R : vec2f -> vec2f -> Prop) (ls ls' : list vec2f) (b : bool) :
  (forall l w, selected_from atan2f points mean l w -> R l w) ->
  adjacent_all R ls ->
  SolverStep atan2f points mean ls = Some (b, ls') ->
  adjacent_all R ls'.
Proof.
  intros HR Hadj Hstep. destruct b.
  - pose proof Hstep as Hs. apply SolverStep_true in Hs.
    destruct Hs as (ls0 & Hsel & Hext).
    assert (Hadj0 : adjacent_all R ls0).
    { pose proof Hsel as Hs. apply chain_at_selection_suffix in Hs.
      destruct Hs as [n ->]. now apply adjacent_all_skipn. }
    apply extend_cases in Hext. destruct Hext
      as [(-> & p0 & Hp0 & ->) | (l & w & Hl & Hw & [-> | ->])]; try exact I.
    apply (@adjacent_all_snoc _ ls0 l w Hadj0 Hl). now apply HR.
  - apply SolverStep_false in Hstep as [_ ->]. exact Hadj.
Qed.

Lemma run_adjacent (R : vec2f -> vec2f -> Prop) (n : nat) :
  (forall l w, selected_from atan2f points mean l w -> R l w) ->
  forall b ls, run atan2f points mean n [] = Some (b, ls) -> adjacent_all R ls.
Proof.
  intros HR. induction n as [|n IH]; intros b ls H; cbn in H.
  - injection H as _ <-. exact I.
  - destruct (run atan2f points mean n []) as [[b1 ls1]|]; [|discriminate].
    eapply SolverStep_adjacent; eauto.
Qed.

End Invariants.

(** A list of points of the point set without repetition under
    [operator==] is no longer than the point set. *)
Lemma eps_nodup_length (points ls : list vec2f) :
  all_finite points = true ->
  Forall (fun v => In v points) ls -> eps_nodup ls ->
  length ls <= length points.
Proof.
  intros Hfin Hin Hnd.
  unfold all_finite in Hfin. rewrite forallb_forall in Hfin.
  rewrite Forall_forall in Hin.
  apply NoDup_incl_length; [|exact Hin].
  apply ordpairs_nodup; [exact Hnd|].
  intros v Hv. apply vec_eq_refl, Hfin, Hin, Hv.
Qed.

Lemma chain_inv_length (points ls : list vec2f) :
  all_finite points = true -> chain_inv points ls ->
  length ls <= length points + 1.
Proof.
  intros Hfin [Hin Hnd].
  assert (Hpre : Forall (fun v => In v points) (removelast ls)).
  { rewrite Forall_forall in *. intros v Hv. apply Hin.
    destruct ls as [|a tl]; [contradiction|].
    rewrite (app_removelast_last a) by discriminate.
    apply in_or_app. now left. }
  pose proof (eps_nodup_length _ Hfin Hpre Hnd) as Hle.
  rewrite removelast_length in Hle. lia.
Qed.

Lemma nth_error_removelast (ls : list vec2f) (i : nat) :
  i < length ls - 1 -> nth_error (removelast ls) i = nth_error ls i.
Proof.
  intros Hi.
  destruct (nth_error ls (length ls - 1)) as [lastv|] eqn:Hlast.
  - rewrite (chain_split_last _ Hlast) at 2.
    rewrite nth_error_app1; [reflexivity | rewrite removelast_length; lia].
  - apply nth_error_None in Hlast. lia.
Qed.

(** C10 (amended).  Over a point set no two of whose points are equal
    under [operator==], in every chain reached from the empty chain by calls
    of [SolverStep], any two elements at different positions before the last
    one are different under [operator==]. *)
Theorem C10_prefix_pairwise_distinct :
  forall (atan2f : float -> float -> float) points mean n b ls,
    pairwise_distinctb points = true ->
    run atan2f points mean n [] = Some (b, ls) ->
    forall i j u v,
      i < j -> j < length ls - 1 ->
      nth_error ls i = Some u -> nth_error ls j = Some v ->
      vec_eq u v = false /\ vec_eq v u = false.
Proof.
  intros atan2f points mean n b ls Hd Hrun i j u v Hij Hj Hu Hv.
  pose proof Hrun as Hinv. apply run_chain_inv in Hinv; [|exact Hd].
  destruct Hinv as [Hin Hnd].
  assert (Hvu : vec_eq v u = false).
  { apply (@ordpairs_nth _ (removelast ls) Hnd i j); auto.
    - rewrite nth_error_removelast by lia. exact Hu.
    - rewrite nth_error_removelast by lia. exact Hv. }
  split; [|exact Hvu].
  destruct (vec_eq u v) eqn:E; [|reflexivity].
  rewrite Forall_forall in Hin.
  assert (u = v).
  { apply (pairwise_distinct_In _ Hd); auto; apply Hin; eapply nth_error_In; eauto. }
  subst v. congruence.
Qed.

Lemma C10_prefix_witness :
  run atan2f_table square origin 5 [] = Some (true, [pE; pN; pW; pS; pE]) /\
  vec_eq pN pS = false /\ vec_eq pS pN = false.
Proof.
  assert (Hrun : run atan2f_table square origin 5 [] = Some (true, [pE; pN; pW; pS; pE]))
    by (vm_compute; reflexivity).
  split; [exact Hrun|].
  apply (@C10_prefix_pairwise_distinct atan2f_table square origin 5 true
           [pE; pN; pW; pS; pE] eq_refl Hrun 1 3 pN pS);
    (cbn; lia) || reflexivity.
Defined.

(** C10 as stated fails for points that are different but closer than the
    tolerance of [operator==].  Over the four points (-7,9), (-4,-2), (3,5),
    (5,3), in units of [2^-33], no two of which coincide under the test of
    line 199, and with the mean [GenerateData] computes for them, the first
    four calls build the chain [(-7,9), (-4,-2), (5,3), (3,5)].  The fifth
    call finds the last vertex (3,5) different from (-7,9) and equal to
    (-4,-2), at index 1: it erases the first two vertices and appends
    (-7,9).  The chain is then [(5,3), (3,5), (-7,9)], and its two vertices
    before the last are equal under [operator==]. *)
Lemma C10_prefix_counterexample :
  NoDup near_points /\
  all_finite near_points = true /\
  (forall p q, In p near_points -> In q near_points -> p <> q ->
               coincides p q = false) /\
  GenerateData_mean 4 near_points = near_mean /\
  run atan2f_sampled near_points near_mean 2 []
  = Some (true, [grid (-7) 9; grid (-4) (-2)]) /\
  run atan2f_sampled near_points near_mean 3 []
  = Some (true, [grid (-7) 9; grid (-4) (-2); grid 5 3]) /\
  run atan2f_sampled near_points near_mean 4 []
  = Some (true, [grid (-7) 9; grid (-4) (-2); grid 5 3; grid 3 5]) /\
  vec_eq (grid 3 5) (grid (-7) 9) = false /\
  vec_eq (grid 3 5) (grid (-4) (-2)) = true /\
  run atan2f_sampled near_points near_mean 5 []
  = Some (true, [grid 5 3; grid 3 5; grid (-7) 9]) /\
  vec_eq (grid 5 3) (grid 3 5) = true /\
  vec_eq (grid 3 5) (grid 5 3) = true.
Proof.
  split.
  { repeat constructor; cbn; intuition discriminate. }
  split; [reflexivity|].
  split.
  { intros p q Hp Hq Hpq. cbn [near_points In] in Hp, Hq.
    destruct Hp as [<- | [<- | [<- | [<- | []]]]];
      destruct Hq as [<- | [<- | [<- | [<- | []]]]];
      try (exfalso; apply Hpq; reflexivity); vm_compute; reflexivity. }
  repeat split; vm_compute; reflexivity.
Qed.

(** ** The length of the chain *)

Section Length.

Variable atan2f : float -> float -> float.
Variable points : list vec2f.
Variable mean : vec2f.

Lemma SolverStep_in_points (ls ls' : list vec2f) (b : bool) :
  Forall (fun v => In v points) ls ->
  SolverStep atan2f points mean ls = Some (b, ls') ->
  Forall (fun v => In v points) ls'.
Proof.
  intros Hin Hstep. destruct b.
  - apply SolverStep_true in Hstep. destruct Hstep as (ls0 & Hsel & Hext).
    assert (Hin0 : Forall (fun v => In v points) ls0).
    { apply chain_at_selection_suffix in Hsel.
      destruct Hsel as [n ->]. now apply Forall_skipn. }
    apply extend_cases in Hext. destruct Hext
      as [(-> & p0 & Hp0 & ->) | (l & w & Hl & Hw & [-> | ->])].
    + constructor; [eapply nth_error_In; eauto | constructor].
    + constructor; [eapply nth_error_In; eauto | constructor].
    + apply Forall_app. split; [exact Hin0|].
      constructor; [eapply nth_error_In; eauto | constructor].
  - apply SolverStep_false in Hstep as [_ ->]. exact Hin.
Qed.

(** The chain is a stretch of the sequence each of whose terms is the point
    selected from the term before: where it holds the same point twice, it
    holds the same points after both places. *)
Lemma orbit_shift (ls : list vec2f) :
  adjacent_all (selected_from atan2f points mean) ls ->
  forall t i j a v,
    i <= j ->
    nth_error ls i = Some a -> nth_error ls j = Some a ->
    nth_error ls (j + t) = Some v ->
    nth_error ls (i + t) = Some v.
Proof.
  intros Horb. induction t as [|t IH]; intros i j a v Hij Hi Hj Hv.
  - rewrite Nat.add_0_r in *. congruence.
  - replace (j + S t) with (S (j + t)) in Hv by lia.
    replace (i + S t) with (S (i + t)) by lia.
    assert (Hlen : S (j + t) < length ls) by (apply nth_error_Some; congruence).
    destruct (nth_error ls (j + t)) as [u|] eqn:Hu;
      [|apply nth_error_None in Hu; lia].
    pose proof (IH i j a u Hij Hi Hj Hu) as Hu'.
    destruct (nth_error ls (S (i + t))) as [v'|] eqn:Hv';
      [|apply nth_error_None in Hv'; lia].
    pose proof (@adjacent_all_nth _ ls Horb (j + t) u v Hu Hv) as H1.
    pose proof (@adjacent_all_nth _ ls Horb (i + t) u v' Hu' Hv') as H2.
    unfold selected_from in H1, H2. congruence.
Qed.

(** When the last vertex differs from all the others, no vertex occurs
    twice. *)
Lemma orbit_nodup (ls : list vec2f) (l : vec2f) :
  nth_error ls (length ls - 1) = Some l ->
  adjacent_all (selected_from atan2f points mean) ls ->
  Forall (fun v => v <> l) (removelast ls) ->
  NoDup ls.
Proof.
  intros Hl Horb Hnew.
  assert (Hlt : forall i j, i < j -> j < length ls ->
                            nth_error ls i = nth_error ls j -> False).
  { intros i j Hij Hj Heq.
    destruct (nth_error ls j) as [a|] eqn:Ha; [|apply nth_error_None in Ha; lia].
    assert (Hlast : nth_error ls (j + (length ls - 1 - j)) = Some l)
      by (replace (j + (length ls - 1 - j)) with (length ls - 1) by lia; exact Hl).
    pose proof (@orbit_shift ls Horb _ i j a l (Nat.lt_le_incl _ _ Hij) Heq Ha Hlast)
      as Hearly.
    rewrite <- nth_error_removelast in Hearly by lia.
    rewrite Forall_forall in Hnew.
    apply (Hnew l); [eapply nth_error_In; eauto | reflexivity]. }
  apply NoDup_nth_error. intros i j Hi Heq.
  assert (Hj : j < length ls).
  { apply nth_error_Some. rewrite <- Heq. now apply nth_error_Some. }
  destruct (Nat.lt_trichotomy i j) as [H | [H | H]]; [|exact H|].
  - exfalso. apply (Hlt i j); auto.
  - exfalso. apply (Hlt j i); auto.
Qed.

Hypothesis Hfin : all_finite points = true.

Lemma SolverStep_length (ls ls' : list vec2f) (b : bool) :
  Forall (fun v => In v points) ls ->
  adjacent_all (selected_from atan2f points mean) ls ->
  length ls <= length points + 1 ->
  SolverStep atan2f points mean ls = Some (b, ls') ->
  length ls' <= length points + 1.
Proof.
  intros Hin Horb Hlen Hstep. destruct b.
  - apply SolverStep_true in Hstep. destruct Hstep as (ls0 & Hsel & Hext).
    apply extend_cases in Hext. destruct Hext
      as [(-> & p0 & Hp0 & ->) | (l & w & Hl & Hw & [-> | ->])];
      [cbn; lia | cbn; lia |].
    rewrite length_app. cbn [length].
    enough (length ls0 <= length points) by lia.
    unfold chain_at_selection in Hsel.
    destruct (closure_check ls) as [|idx|] eqn:Hc; [discriminate | |];
      injection Hsel as <-.
    + unfold erase_prefix. rewrite length_skipn. lia.
    + (* nothing was erased: the last vertex is new *)
      rewrite Forall_forall in Hin.
      assert (Hl_in : In l points) by (apply Hin; eapply nth_error_In; eauto).
      assert (Hll : vec_eq l l = true).
      { apply vec_eq_refl. unfold all_finite in Hfin.
        rewrite forallb_forall in Hfin. auto. }
      assert (Hnew : Forall (fun v => v <> l) (removelast ls)).
      { unfold closure_check in Hc. rewrite Hl in Hc.
        destruct (1 <? length ls) eqn:E.
        - apply closure_scan_no_match in Hc.
          rewrite Forall_forall in *. intros v Hv ->.
          rewrite (Hc l Hv) in Hll. discriminate.
        - apply Nat.ltb_ge in E.
          destruct ls as [|a [|a' tl]]; cbn in *; [constructor | constructor | lia]. }
      apply NoDup_incl_length; [eapply orbit_nodup; eauto | exact Hin].
  - apply SolverStep_false in Hstep as [_ ->]. exact Hlen.
Qed.

Lemma run_length (n : nat) :
  forall b ls,
    run atan2f points mean n [] = Some (b, ls) ->
    Forall (fun v => In v points) ls /\
    adjacent_all (selected_from atan2f points mean) ls /\
    length ls <= length points + 1.
Proof.
  induction n as [|n IH]; intros b ls H; cbn in H.
  - injection H as _ <-. repeat split; [constructor | cbn; lia].
  - destruct (run atan2f points mean n []) as [[b1 ls1]|]; [|discriminate].
    destruct (IH _ _ eq_refl) as (Hin & Horb & Hlen).
    split; [eapply SolverStep_in_points; eauto|].
    split; [eapply SolverStep_adjacent; [|exact Horb|exact H]; auto|].
    eapply SolverStep_length; eauto.
Qed.

End Length.

(** C9 (amended).  Over a point set of [N] points with finite coordinates,
    every chain reached from the empty chain has at most [N + 1]
    elements. *)
Theorem C9_length_at_most_N_plus_1 :
  forall (atan2f : float -> float -> float) points mean n b ls,
    all_finite points = true ->
    run atan2f points mean n [] = Some (b, ls) ->
    length ls <= length points + 1.
Proof.
  intros atan2f points mean n b ls Hfin Hrun.
  now apply (@run_length atan2f points mean Hfin n b ls).
Qed.

Lemma C9_length_witness :
  run atan2f_table square origin 5 [] = Some (true, [pE; pN; pW; pS; pE]) /\
  length [pE; pN; pW; pS; pE] <= length square + 1.
Proof.
  assert (Hrun : run atan2f_table square origin 5 [] = Some (true, [pE; pN; pW; pS; pE]))
    by (vm_compute; reflexivity).
  split; [exact Hrun|].
  apply (@C9_length_at_most_N_plus_1 atan2f_table square origin 5 true
           [pE; pN; pW; pS; pE] eq_refl Hrun).
Defined.

(** C9 as stated fails.  Over the four points (1,0), (0,1), (-1,0), (0,-1),
    with centroid (0,0), four calls after the seed walk round the square and
    come back to (1,0): the chain has 5 elements, one more than the point
    set. *)
Lemma C9_length_counterexample :
  GenerateData_mean 4 square = origin /\
  all_finite square = true /\
  pairwise_distinctb square = true /\
  run atan2f_table square origin 5 [] = Some (true, [pE; pN; pW; pS; pE]) /\
  length square < length [pE; pN; pW; pS; pE].
Proof.
  split; [vm_compute; reflexivity|].
  split; [reflexivity|]. split; [reflexivity|].
  split; [vm_compute; reflexivity | cbn; lia].
Qed.

(** C8 (amended).  Over a point set no two of whose points are equal under
    [operator==], in every chain reached from the empty chain two
    consecutive elements [u], [v] are different under [operator==], unless
    [v] is [points[0]] and the selection from [u] found no candidate with an
    angle below 360 ([closest] and [min_ang] kept their initial values). *)
Theorem C8_adjacent_distinct_or_default :
  forall (atan2f : float -> float -> float) points mean n b ls,
    pairwise_distinctb points = true ->
    run atan2f points mean n [] = Some (b, ls) ->
    forall i u v,
      nth_error ls i = Some u -> nth_error ls (S i) = Some v ->
      (vec_eq u v = false /\ vec_eq v u = false) \/
      (nth_error points 0 = Some v /\ select atan2f points mean u = (0, f360)).
Proof.
  intros atan2f points mean n b ls Hd Hrun i u v Hu Hv.
  pose proof Hrun as Hinv. apply run_chain_inv in Hinv; [|exact Hd].
  destruct Hinv as [Hin _].
  pose proof Hrun as Hadj.
  apply (@run_adjacent atan2f points mean (follows atan2f points mean)) in Hadj;
    [|apply selected_follows].
  pose proof (@adjacent_all_nth _ ls Hadj i u v Hu Hv) as [Hco | Hdef];
    [left | now right].
  rewrite Forall_forall in Hin.
  assert (Hu_in : In u points) by (apply Hin; eapply nth_error_In; eauto).
  assert (Hv_in : In v points) by (apply Hin; eapply nth_error_In; eauto).
  assert (Hno : forall p q, In p points -> In q points ->
                            coincides p q = false -> vec_eq p q = false).
  { intros p q Hp Hq Hpq. destruct (vec_eq p q) eqn:E; [|reflexivity].
    pose proof (pairwise_distinct_In _ Hd _ _ Hp Hq E) as <-.
    rewrite (coincides_refl _ (vec_eq_self_finite _ E)) in Hpq. discriminate. }
  split; [now apply Hno|].
  destruct (vec_eq v u) eqn:E; [|reflexivity].
  pose proof (pairwise_distinct_In _ Hd _ _ Hv_in Hu_in E) as ->.
  rewrite (Hno u u Hu_in Hu_in Hco) in E. discriminate.
Qed.

Lemma C8_adjacent_witness :
  run atan2f_table square origin 5 [] = Some (true, [pE; pN; pW; pS; pE]) /\
  ((vec_eq pW pS = false /\ vec_eq pS pW = false) \/
   (nth_error square 0 = Some pS /\ select atan2f_table square origin pW = (0, f360))).
Proof.
  assert (Hrun : run atan2f_table square origin 5 [] = Some (true, [pE; pN; pW; pS; pE]))
    by (vm_compute; reflexivity).
  split; [exact Hrun|].
  apply (@C8_adjacent_distinct_or_default atan2f_table square origin 5 true
           [pE; pN; pW; pS; pE] eq_refl Hrun 2 pW pS); reflexivity.
Defined.

(** C8 as stated fails.  Over the two points (-1,0), (1,0), with centroid
    (0,0): the seed is (-1,0); the only candidate, (1,0), has remapped angle
    360, not below the initial [min_ang], so the second call appends
    [points[0]] = (-1,0) and the chain is [(-1,0), (-1,0)]. *)
Lemma C8_adjacent_counterexample :
  GenerateData_mean 2 [pW; pE] = origin /\
  all_finite [pW; pE] = true /\
  pairwise_distinctb [pW; pE] = true /\
  run atan2f_table [pW; pE] origin 2 [] = Some (true, [pW; pW]) /\
  vec_eq pW pW = true.
Proof.
  repeat split; vm_compute; reflexivity.
Qed.

(** ** Reaching the result [false] *)

Lemma run_S_front (atan2f : float -> float -> float) (points : list vec2f)
      (mean : vec2f) (n : nat) (ls : list vec2f) :
  run atan2f points mean (S (S n)) ls =
    match SolverStep atan2f points mean ls with
    | Some (_, ls1) => run atan2f points mean (S n) ls1
    | None => None
    end.
Proof.
  induction n as [|n IH].
  - cbn. destruct (SolverStep atan2f points mean ls) as [[b ls1]|]; reflexivity.
  - change (run atan2f points mean (S (S (S n))) ls)
      with (match run atan2f points mean (S (S n)) ls with
            | Some (_, l) => SolverStep atan2f points mean l
            | None => None
            end).
    rewrite IH.
    destruct (SolverStep atan2f points mean ls) as [[b ls1]|]; reflexivity.
Qed.

Lemma run_app (atan2f : float -> float -> float) (points : list vec2f)
      (mean : vec2f) (n n0 : nat) (ls0 : list vec2f) :
  run atan2f points mean (S n + n0) ls0 =
    match run atan2f points mean n0 ls0 with
    | Some (_, ls) => run atan2f points mean (S n) ls
    | None => None
    end.
Proof.
  induction n as [|n IH].
  - cbn. destruct (run atan2f points mean n0 ls0) as [[b ls]|]; reflexivity.
  - change (run atan2f points mean (S (S n) + n0) ls0)
      with (match run atan2f points mean (S n + n0) ls0 with
            | Some (_, l) => SolverStep atan2f points mean l
            | None => None
            end).
    rewrite IH.
    destruct (run atan2f points mean n0 ls0) as [[b ls]|]; reflexivity.
Qed.

Lemma nth_error_middle (pre : list vec2f) (a : vec2f) (tl : list vec2f) :
  nth_error (pre ++ a :: tl) (length pre) = Some a.
Proof. rewrite nth_error_app2 by lia. now rewrite Nat.sub_diag. Qed.

Lemma nth_error_after_middle (pre : list vec2f) (a b : vec2f) (tl : list vec2f) :
  nth_error (pre ++ a :: b :: tl) (S (length pre)) = Some b.
Proof.
  rewrite nth_error_app2 by lia.
  replace (S (length pre) - length pre) with 1 by lia. reflexivity.
Qed.

Lemma nth_error_snoc_last (ls : list vec2f) (a : vec2f) :
  nth_error (ls ++ [a]) (length (ls ++ [a]) - 1) = Some a.
Proof.
  rewrite length_app. cbn [length].
  replace (length ls + 1 - 1) with (length ls) by lia.
  apply nth_error_middle.
Qed.

Section Termination.

Variable atan2f : float -> float -> float.
Variable points : list vec2f.
Variable mean : vec2f.

Hypothesis Hfin : all_finite points = true.
Hypothesis Hd : pairwise_distinctb points = true.

Lemma point_eq_refl (v : vec2f) : In v points -> vec_eq v v = true.
Proof.
  intros Hv. apply vec_eq_refl.
  unfold all_finite in Hfin. rewrite forallb_forall in Hfin. auto.
Qed.

(** A chain that has come back to its first vertex makes the call return
    [false]. *)
Lemma closed_chain_returns (h : vec2f) (mid : list vec2f) :
  In h points ->
  SolverStep atan2f points mean (h :: mid ++ [h]) = Some (false, h :: mid ++ [h]).
Proof.
  intros Hh. unfold SolverStep.
  rewrite (@closure_check_first_match (h :: mid ++ [h]) 0); [reflexivity|].
  exists h, h.
  change (h :: mid ++ [h]) with ((h :: mid) ++ [h]).
  split; [apply nth_error_snoc_last|].
  split; [rewrite length_app; cbn; lia|].
  split; [reflexivity|].
  split; [now apply point_eq_refl | intros; lia].
Qed.

(** After an erasure the selection appends the vertex the kept part starts
    with, and the next call returns [false]. *)
Lemma erase_then_return (ls : list vec2f) (idx : nat) :
  chain_inv points ls ->
  adjacent_all (selected_from atan2f points mean) ls ->
  closure_check ls = ScanErase idx ->
  exists ls1,
    SolverStep atan2f points mean ls = Some (true, ls1) /\
    SolverStep atan2f points mean ls1 = Some (false, ls1).
Proof.
  intros [Hin _] Horb Hc. pose proof Hc as Hscan.
  unfold closure_check in Hscan.
  destruct (1 <? length ls); [|discriminate].
  destruct (nth_error ls (length ls - 1)) as [lastv|] eqn:Hlast; [|discriminate].
  apply closure_scan_inv in Hscan.
  destruct Hscan as (pre & v & post & Hrl & Hidx & _ & Hv & _).
  cbn in Hidx. subst idx.
  assert (Hls : ls = pre ++ v :: post ++ [lastv]).
  { rewrite (chain_split_last _ Hlast) at 1. rewrite Hrl, <- app_assoc. reflexivity. }
  rewrite Forall_forall in Hin.
  assert (Hlv : lastv = v).
  { apply (pairwise_distinct_In _ Hd); auto; apply Hin; rewrite Hls.
    - apply in_or_app. right. right. apply in_or_app. right. now left.
    - apply in_or_app. right. now left. }
  subst lastv.
  assert (Hv_in : In v points).
  { apply Hin. rewrite Hls. apply in_or_app. right. now left. }
  assert (Hsel : chain_at_selection ls = Some (post ++ [v])).
  { unfold chain_at_selection. rewrite Hc. unfold erase_prefix. f_equal.
    rewrite Hls at 1.
    change (pre ++ v :: post ++ [v]) with (pre ++ [v] ++ post ++ [v]).
    rewrite app_assoc, skipn_app.
    replace (S (length pre)) with (length (pre ++ [v]))
      by (rewrite length_app; cbn; lia).
    now rewrite skipn_all, Nat.sub_diag. }
  rewrite (SolverStep_at_selection atan2f points mean _ Hsel).
  rewrite (extend_last atan2f points mean _ (nth_error_snoc_last post v)).
  pose proof (select_cases atan2f points mean v) as Hcases.
  unfold selects_first_least in Hcases.
  destruct post as [|h post'].
  - (* the kept part is [[v]] and [v] was selected from itself *)
    assert (Hvv : selected_from atan2f points mean v v).
    { apply (@adjacent_all_nth _ ls Horb (length pre)); rewrite Hls.
      - apply nth_error_middle.
      - apply nth_error_after_middle. }
    unfold selected_from in Hvv.
    destruct (select atan2f points mean v) as [c m]. cbn [fst snd] in *.
    rewrite Hvv.
    assert (Hm : ltb m f90 = false).
    { destruct Hcases as [[Hdef _] | [(w & Hw & Hco & _) _]].
      - injection Hdef as _ ->. apply f360_not_below_f90.
      - rewrite Hvv in Hw. injection Hw as <-.
        rewrite coincides_refl in Hco; [discriminate|].
        unfold all_finite in Hfin. rewrite forallb_forall in Hfin. auto. }
    rewrite Hm. cbn. exists [v; v]. split; [reflexivity|].
    apply (closed_chain_returns v [] Hv_in).
  - assert (Hvh : selected_from atan2f points mean v h).
    { apply (@adjacent_all_nth _ ls Horb (length pre)); rewrite Hls.
      - apply nth_error_middle.
      - apply nth_error_after_middle. }
    unfold selected_from in Hvh.
    destruct (select atan2f points mean v) as [c m]. cbn [fst] in *.
    rewrite Hvh.
    replace (length ((h :: post') ++ [v]) =? 1) with false
      by (rewrite length_app; cbn [length]; symmetry; apply Nat.eqb_neq; lia).
    rewrite andb_false_r.
    exists (((h :: post') ++ [v]) ++ [h]). split; [reflexivity|].
    apply (closed_chain_returns h (post' ++ [v])).
    apply Hin. rewrite Hls. apply in_or_app. right. right. now left.
Qed.

(** When the closure loop finds nothing on a chain of two or more vertices,
    the chain holds at most [N] vertices and the call appends one. *)
Lemma no_match_appends (ls : list vec2f) :
  chain_inv points ls -> 2 <= length ls ->
  closure_check ls = ScanNoMatch ->
  length ls <= length points /\
  exists w, selected_from atan2f points mean
                          (nth (length ls - 1) ls w) w /\
            SolverStep atan2f points mean ls = Some (true, ls ++ [w]).
Proof.
  intros [Hin Hnd] Hlen Hc.
  assert (Hsel : chain_at_selection ls = Some ls).
  { unfold chain_at_selection. now rewrite Hc. }
  assert (Hall : eps_nodup ls) by (eapply chain_at_selection_nodup; eauto).
  split; [now apply eps_nodup_length|].
  destruct (nth_error ls (length ls - 1)) as [l|] eqn:Hl;
    [|apply nth_error_None in Hl; lia].
  assert (Hne : points <> []).
  { rewrite Forall_forall in Hin. intros ->.
    apply (Hin l). eapply nth_error_In; eauto. }
  pose proof (select_in_range atan2f mean l Hne) as Hc'.
  destruct (nth_error points (fst (select atan2f points mean l))) as [w|] eqn:Hw;
    [|apply nth_error_None in Hw; lia].
  exists w. rewrite (nth_error_nth _ _ _ Hl). split; [exact Hw|].
  rewrite (SolverStep_at_selection atan2f points mean _ Hsel).
  rewrite (extend_last atan2f points mean _ Hl).
  destruct (select atan2f points mean l) as [c m]. cbn [fst] in Hw. rewrite Hw.
  replace (length ls =? 1) with false by (symmetry; apply Nat.eqb_neq; lia).
  now rewrite andb_false_r.
Qed.

(** Once the chain holds two vertices, at most [N + 3 - length] further
    calls are made before one returns [false]. *)
Lemma done_after_two_vertices (d : nat) :
  forall ls,
    length points + 1 - length ls <= d ->
    chain_inv points ls ->
    adjacent_all (selected_from atan2f points mean) ls ->
    2 <= length ls ->
    exists n ls',
      S n + length ls <= length points + 3 /\
      run atan2f points mean (S n) ls = Some (false, ls').
Proof.
  induction d as [|d IH]; intros ls Hmeasure Hinv Horb Hlen;
    pose proof (chain_inv_length Hfin Hinv) as Hbound;
    destruct (closure_check ls) as [|idx|] eqn:Hc.
  1,4: exists 0, ls; split; [lia|]; cbn; unfold SolverStep; now rewrite Hc.
  1,3: destruct (erase_then_return Hinv Horb Hc) as (ls1 & H1 & H2);
       exists 1, ls1; split; [lia|]; rewrite run_S_front, H1; exact H2.
  - destruct (no_match_appends Hinv Hlen Hc) as [Hle _]. lia.
  - destruct (no_match_appends Hinv Hlen Hc) as [Hle (w & Hw & Hstep)].
    assert (Hinv' : chain_inv points (ls ++ [w])).
    { eapply SolverStep_chain_inv; eauto. }
    assert (Horb' : adjacent_all (selected_from atan2f points mean) (ls ++ [w])).
    { eapply SolverStep_adjacent; [|exact Horb|exact Hstep]. auto. }
    destruct (IH (ls ++ [w])) as (n & ls' & Hn & Hrun); auto;
      try (rewrite length_app; cbn [length]; lia).
    exists (S n), ls'. rewrite length_app in Hn. cbn [length] in Hn.
    split; [lia|]. rewrite run_S_front, Hstep. exact Hrun.
Qed.

End Termination.

(** X1.  Over a point set with finite coordinates, no two of its points
    equal under [operator==]: if the calls made from the empty chain ever
    leave a chain of two or more vertices, one of the next [N + 1] calls
    returns [false]. *)
Theorem done_once_two_vertices :
  forall (atan2f : float -> float -> float) points mean n0 b ls,
    all_finite points = true ->
    pairwise_distinctb points = true ->
    run atan2f points mean n0 [] = Some (b, ls) ->
    2 <= length ls ->
    exists n ls',
      n <= length points /\
      run atan2f points mean (S n + n0) [] = Some (false, ls').
Proof.
  intros atan2f points mean n0 b ls Hfin Hd Hrun Hlen.
  assert (Hinv : chain_inv points ls) by (eapply run_chain_inv; eauto).
  assert (Horb : adjacent_all (selected_from atan2f points mean) ls).
  { eapply run_adjacent; [|exact Hrun]. auto. }
  destruct (@done_after_two_vertices atan2f points mean Hfin Hd
              (length points + 1 - length ls) ls (le_n _) Hinv Horb Hlen)
    as (n & ls' & Hn & Hdone).
  exists n, ls'. split; [lia|].
  rewrite run_app, Hrun. exact Hdone.
Qed.

Lemma done_once_two_vertices_witness :
  exists n ls',
    n <= length square /\
    run atan2f_table square origin (S n + 2) [] = Some (false, ls').
Proof.
  apply (@done_once_two_vertices atan2f_table square origin 2 true [pE; pN]);
    reflexivity.
Defined.

(** ** The seed phase need not end

    While the chain holds a single vertex and the least angle is below 90,
    line 210 replaces that vertex.  Whether this phase ends depends on the
    values [atan2f] returns and on the tolerance of [operator==]. *)

(** With an [atan2f] that always answers 0 every candidate has angle 0: over
    the two points (1,0), (-1,0), with centroid (0,0), the chain alternates
    between [(1,0)] and [(-1,0)] and no call returns [false]. *)
Lemma atan2f_zero_never_done :
  all_finite [pE; pW] = true /\
  pairwise_distinctb [pE; pW] = true /\
  GenerateData_mean 2 [pE; pW] = origin /\
  forall n, exists ls, run atan2f_zero [pE; pW] origin n [] = Some (true, ls).
Proof.
  do 3 (split; [vm_compute; reflexivity|]).
  assert (H : forall n,
             run atan2f_zero [pE; pW] origin n [] = Some (true, []) \/
             run atan2f_zero [pE; pW] origin n [] = Some (true, [pE]) \/
             run atan2f_zero [pE; pW] origin n [] = Some (true, [pW])).
  { induction n as [|n IH]; [now left|].
    cbn [run]. destruct IH as [-> | [-> | ->]].
    - right; left. vm_compute. reflexivity.
    - right; right. vm_compute. reflexivity.
    - right; left. vm_compute. reflexivity. }
  intros n. destruct (H n) as [-> | [-> | ->]]; eauto.
Qed.

(** With the tabulated values of [atan2f]: over four different points of
    the x axis, at 16, 12, 0 and 40 times 2^-33, two of which are equal
    under [operator==] without coinciding, and with the mean [GenerateData]
    computes for them, the chain goes round [(0)], [(0),(16)],
    [(0),(16),(12)] for ever and no call returns [false]; the consecutive
    vertices (16) and (12) are equal under [operator==]. *)
Lemma close_points_never_done :
  all_finite close_points = true /\
  NoDup close_points /\
  vec_eq (tiny 12) (tiny 16) = true /\
  coincides (tiny 16) (tiny 12) = false /\
  GenerateData_mean 4 close_points = tiny 17 /\
  run atan2f_table close_points (tiny 17) 5 []
  = Some (true, [tiny 0; tiny 16; tiny 12]) /\
  forall n, exists ls, run atan2f_table close_points (tiny 17) n [] = Some (true, ls).
Proof.
  split; [vm_compute; reflexivity|].
  split.
  { repeat constructor; cbn; intuition discriminate. }
  do 4 (split; [vm_compute; reflexivity|]).
  assert (H : forall n,
             In (run atan2f_table close_points (tiny 17) n [])
                [Some (true, []); Some (true, [tiny 16]); Some (true, [tiny 12]);
                 Some (true, [tiny 0]); Some (true, [tiny 0; tiny 16]);
                 Some (true, [tiny 0; tiny 16; tiny 12])]).
  { induction n as [|n IH]; [now left|].
    cbn [run]. cbn [In] in IH.
    destruct IH as [<- | [<- | [<- | [<- | [<- | [<- | []]]]]]].
    - right; left. vm_compute. reflexivity.
    - right; right; left. vm_compute. reflexivity.
    - right; right; right; left. vm_compute. reflexivity.
    - right; right; right; right; left. vm_compute. reflexivity.
    - right; right; right; right; right; left. vm_compute. reflexivity.
    - right; right; right; left. vm_compute. reflexivity. }
  intros n. specialize (H n). cbn [In] in H.
  destruct H as [<- | [<- | [<- | [<- | [<- | [<- | []]]]]]]; eauto.
Qed.

(** Over a point set whose single point has coordinates that are not
    numbers, no vertex is equal to itself under [operator==]: no closure is
    ever found and the chain grows by one vertex at every call. *)
Lemma nan_chain_grows :
  forall n, run atan2f_table [nan_point] nan_point n [] = Some (true, repeat nan_point n).
Proof.
  assert (Hstep : forall k,
             SolverStep atan2f_table [nan_point] nan_point (repeat nan_point (S k))
             = Some (true, repeat nan_point (S (S k)))).
  { intros k.
    assert (Hlast : nth_error (repeat nan_point (S k))
                              (length (repeat nan_point (S k)) - 1) = Some nan_point).
    { rewrite repeat_length. apply nth_error_repeat. lia. }
    assert (Hsel : chain_at_selection (repeat nan_point (S k))
                   = Some (repeat nan_point (S k))).
    { unfold chain_at_selection, closure_check. rewrite Hlast.
      destruct (1 <? length (repeat nan_point (S k))); [|reflexivity].
      replace (closure_scan nan_point (removelast (repeat nan_point (S k))) 0)
        with ScanNoMatch; [reflexivity|].
      symmetry. apply closure_scan_no_match. apply Forall_forall. intros v Hv.
      assert (In v (repeat nan_point (S k))).
      { rewrite (chain_split_last _ Hlast). apply in_or_app. now left. }
      apply repeat_spec in H. subst v. reflexivity. }
    rewrite (SolverStep_at_selection atan2f_table [nan_point] nan_point _ Hsel).
    rewrite (extend_last atan2f_table [nan_point] nan_point _ Hlast).
    replace (select atan2f_table [nan_point] nan_point nan_point) with (0, f360)
      by (vm_compute; reflexivity).
    cbn [nth_error]. rewrite f360_not_below_f90. cbn [andb].
    now rewrite <- repeat_cons. }
  induction n as [|n IH]; [reflexivity|].
  cbn [run]. rewrite IH. destruct n as [|k]; [reflexivity | apply Hstep].
Qed.

(** ** More facts on binary32 arithmetic *)

Lemma f32_add_comm (a b : float) : add a b = add b a.
Proof.
  unfold add, SFadd.
  destruct a as [[]|[]| |sa ma ea], b as [[]|[]| |sb mb eb]; try reflexivity.
  cbv zeta. now rewrite (Z.min_comm ea eb), Z.add_comm.
Qed.

(** The sign given to the rounding function is the sign of its result. *)
Lemma round_aux_abs (s : bool) (m e : Z) (l : location) :
  abs (binary_round_aux prec emax s m e l) = binary_round_aux prec emax false m e l.
Proof.
  unfold binary_round_aux.
  destruct (shr_fexp prec emax m e l) as [mrs' e'].
  destruct (shr_fexp prec emax _ e' loc_Exact) as [mrs'' e''].
  destruct (shr_m mrs''); [reflexivity | | reflexivity].
  destruct (e'' <=? emax - prec)%Z; reflexivity.
Qed.

Lemma normalize_abs_opp (z e : Z) :
  abs (binary_normalize prec emax (- z) e false) = abs (binary_normalize prec emax z e false).
Proof.
  destruct z as [|p|p]; cbn [Z.opp binary_normalize]; [reflexivity | |];
    unfold binary_round;
    destruct (shl_align p e _) as [mz ez]; now rewrite !round_aux_abs.
Qed.

(** [|a - b|] and [|b - a|] are the same number. *)
Lemma abs_sub_swap (a b : float) : abs (sub a b) = abs (sub b a).
Proof.
  unfold sub, SFsub.
  destruct a as [[]|[]| |sa ma ea], b as [[]|[]| |sb mb eb]; try reflexivity.
  cbv zeta. rewrite (Z.min_comm eb ea).
  set (za := cond_Zopp sa _). set (zb := cond_Zopp sb _).
  replace (zb - za)%Z with (- (za - zb))%Z by lia.
  now rewrite normalize_abs_opp.
Qed.

(** A square does not depend on the sign of its argument. *)
Lemma mul_self_abs (a : float) : mul a a = mul (abs a) (abs a).
Proof. destruct a as [[]|[]| |[] m e]; reflexivity. Qed.

Lemma abs_opp (a : float) : abs (opp a) = abs a.
Proof. destruct a; reflexivity. Qed.

Lemma norm_swap (a b : vec2f) : norm (vec_sub a b) = norm (vec_sub b a).
Proof.
  unfold norm, vec_sub. cbn [x y].
  rewrite (mul_self_abs (sub (x a) (x b))), (mul_self_abs (sub (y a) (y b))).
  rewrite (abs_sub_swap (x a) (x b)), (abs_sub_swap (y a) (y b)).
  now rewrite <- !mul_self_abs.
Qed.

(** The vector turned by a quarter of a turn has the same norm. *)
Lemma norm_perp (v : vec2f) : norm (mkvec (opp (y v)) (x v)) = norm v.
Proof.
  unfold norm. cbn [x y].
  rewrite (mul_self_abs (opp (y v))), abs_opp, <- mul_self_abs.
  now rewrite f32_add_comm.
Qed.

Lemma coincides_sym (a b : vec2f) : coincides a b = coincides b a.
Proof. unfold coincides. now rewrite norm_swap. Qed.

(** ** [operator==] (line 50) *)

(** X2.  [operator==] does not depend on the order of its operands. *)
Theorem operator_eq_symmetric :
  forall u v : vec2f, vec_eq u v = vec_eq v u.
Proof.
  intros u v. unfold vec_eq.
  now rewrite (abs_sub_swap (x u) (x v)), (abs_sub_swap (y u) (y v)).
Qed.

(** X3.  A point is equal to itself under [operator==] exactly when both its
    coordinates are finite: a point with an infinite or NaN coordinate is
    different from itself. *)
Theorem operator_eq_reflexive_iff_finite :
  forall u : vec2f, vec_eq u u = true <-> vec_finite u = true.
Proof.
  intros u. split; [apply vec_eq_self_finite | apply vec_eq_refl].
Qed.

(** X4.  [operator==] is not transitive: (0,0) is equal to (6 * 2^-33, 0),
    which is equal to (12 * 2^-33, 0), and (0,0) is different from (12 *
    2^-33, 0); the tolerance [1e-9f] lies between [8 * 2^-33] and [9 *
    2^-33]. *)
Theorem operator_eq_not_transitive :
  exists u v w : vec2f,
    vec_finite u = true /\ vec_finite v = true /\ vec_finite w = true /\
    vec_eq u v = true /\ vec_eq v w = true /\ vec_eq u w = false.
Proof.
  exists (tiny 0), (tiny 6), (tiny 12). repeat split; vm_compute; reflexivity.
Qed.

(** ** The test of line 199 and [DrawLine] (lines 122-139) *)

(** X5.  The test [v2.norm() == 0.0f] of line 199 gives the same answer for
    [p] seen from [l] and for [l] seen from [p]. *)
Theorem coincidence_is_symmetric :
  forall l p : vec2f, coincides l p = coincides p l.
Proof. exact coincides_sym. Qed.

(** X6.  [DrawLine] leaves the container as it is exactly when its end
    points coincide in the sense of line 199 ([pt2 - pt1] has norm zero);
    otherwise it appends the eight floats of one quad after what the
    container holds. *)
Theorem DrawLine_skips_coinciding_ends :
  forall (pt1 pt2 : vec2f) (container : list float),
    (coincides pt1 pt2 = true -> DrawLine pt1 pt2 container = container) /\
    (coincides pt1 pt2 = false ->
     exists quad, length quad = 8 /\ DrawLine pt1 pt2 container = container ++ quad).
Proof.
  intros pt1 pt2 container. unfold DrawLine, coincides.
  cbv zeta. rewrite norm_perp. split; intros H; rewrite H; [reflexivity|].
  eexists. split; [|reflexivity]. reflexivity.
Qed.

Lemma DrawLine_skips_coinciding_ends_witness :
  (coincides pE pE = true -> DrawLine pE pE [] = []) /\
  (coincides pE pN = false ->
   exists quad, length quad = 8 /\ DrawLine pE pN [] = [] ++ quad).
Proof.
  split.
  - apply (DrawLine_skips_coinciding_ends pE pE []).
  - apply (DrawLine_skips_coinciding_ends pE pN []).
Defined.

(** ** [DrawPoint] (lines 101-120) *)

Section Rings.

Variables cosf sinf : float -> float.

Let ring (p : vec2f) : list float := DrawPoint cosf sinf p [].

Lemma DrawPoint_loop_closed_form (center : vec2f) (n : nat) :
  forall j container,
    DrawPoint_loop cosf sinf center
                   (ring_vertex cosf sinf center r1 j) (ring_vertex cosf sinf center r2 j)
                   (S j) n container
    = container ++ flat_map (ring_quad cosf sinf center) (seq (S j) n).
Proof.
  induction n as [|n IH]; intros j container.
  - cbn. now rewrite app_nil_r.
  - cbn [DrawPoint_loop seq flat_map]. cbv zeta.
    change (vec_add center
              (vec_scale (mkvec (cosf (node_angle (S j))) (sinf (node_angle (S j)))) r1))
      with (ring_vertex cosf sinf center r1 (S j)).
    change (vec_add center
              (vec_scale (mkvec (cosf (node_angle (S j))) (sinf (node_angle (S j)))) r2))
      with (ring_vertex cosf sinf center r2 (S j)).
    rewrite IH, <- app_assoc. unfold ring_quad at 2.
    now replace (S j - 1) with j by lia.
Qed.

Lemma DrawPoint_closed_form (center : vec2f) (container : list float) :
  DrawPoint cosf sinf center container
  = container ++ flat_map (ring_quad cosf sinf center) (seq 1 kPointNodes).
Proof.
  unfold DrawPoint.
  exact (DrawPoint_loop_closed_form center kPointNodes 0 container).
Qed.

Lemma flat_map_length_const (A : Type) (f : A -> list float) (k : nat) (l : list A) :
  (forall a, length (f a) = k) -> length (flat_map f l) = k * length l.
Proof.
  intros Hf. induction l as [|a l IH]; cbn; [lia|].
  rewrite length_app, Hf, IH. lia.
Qed.

Lemma ring_length (p : vec2f) : length (ring p) = 8 * kPointNodes.
Proof.
  unfold ring. rewrite DrawPoint_closed_form. cbn [app].
  rewrite (@flat_map_length_const _ _ 8) by reflexivity.
  now rewrite length_seq.
Qed.

Lemma DrawPoint_app (center : vec2f) (container : list float) :
  DrawPoint cosf sinf center container = container ++ ring center.
Proof. unfold ring. now rewrite !DrawPoint_closed_form. Qed.

End Rings.

(** X7.  [DrawPoint] keeps what the container holds and appends [8 *
    kPointNodes] floats after it, which depend on the centre only. *)
Theorem DrawPoint_appends_a_ring :
  forall (cosf sinf : float -> float) (center : vec2f) (container : list float),
    DrawPoint cosf sinf center container = container ++ DrawPoint cosf sinf center [] /\
    length (DrawPoint cosf sinf center []) = 8 * kPointNodes.
Proof.
  intros cosf sinf center container.
  split; [apply DrawPoint_app | apply ring_length].
Qed.

(** X8.  The floats [DrawPoint] appends are those of [kPointNodes] quads,
    the [j]-th joining the nodes [j - 1] and [j] of the outer and of the
    inner circle: each quad starts on the edge the quad before it ends on,
    node 0 being [center + (r, 0)] and node [j] the point at angle
    [2*PI*j/kPointNodes]. *)
Theorem DrawPoint_ring_is_connected :
  forall (cosf sinf : float -> float) (center : vec2f),
    DrawPoint cosf sinf center []
    = flat_map (fun j =>
                  quad_floats (ring_vertex cosf sinf center r1 j)
                              (ring_vertex cosf sinf center r1 (j - 1))
                              (ring_vertex cosf sinf center r2 j)
                              (ring_vertex cosf sinf center r2 (j - 1)))
               (seq 1 kPointNodes).
Proof.
  intros cosf sinf center. now rewrite DrawPoint_closed_form.
Qed.

(** ** The buffer [SolverStep] fills (lines 183, 214-220) *)

Section Buffers.

Variable atan2f : float -> float -> float.
Variables cosf sinf : float -> float.

Let ring (p : vec2f) : list float := DrawPoint cosf sinf p [].
Let quad_of (s : vec2f * vec2f) : list float := DrawLine (fst s) (snd s) [].

Lemma some_eq (A : Type) (a b : A) : Some a = Some b -> a = b.
Proof. intros H. now inversion H. Qed.

Lemma DrawLine_app (pt1 pt2 : vec2f) (container : list float) :
  DrawLine pt1 pt2 container = container ++ DrawLine pt1 pt2 [].
Proof.
  unfold DrawLine. cbv zeta.
  destruct (eqb _ f0); [now rewrite app_nil_r | reflexivity].
Qed.

Lemma draw_points_app (ls : list vec2f) :
  forall container,
    fold_left (fun c v => DrawPoint cosf sinf v c) ls container
    = container ++ flat_map ring ls.
Proof.
  induction ls as [|a ls IH]; intros container; cbn [fold_left flat_map].
  - now rewrite app_nil_r.
  - rewrite IH, DrawPoint_app, <- app_assoc. reflexivity.
Qed.

Lemma draw_segments_app (rest : list vec2f) :
  forall prev container,
    draw_segments prev rest container
    = container ++ flat_map quad_of (chain_segments prev rest).
Proof.
  induction rest as [|v tl IH]; intros prev container;
    cbn [draw_segments chain_segments flat_map].
  - now rewrite app_nil_r.
  - rewrite IH, DrawLine_app, <- app_assoc. reflexivity.
Qed.

Lemma nth_error_last (ls : list vec2f) :
  forall a d, nth_error (a :: ls) (length ls) = Some (last (a :: ls) d).
Proof.
  induction ls as [|b tl IH]; intros a d; [reflexivity|].
  cbn [length nth_error]. rewrite (IH b d). reflexivity.
Qed.

Lemma draw_chain_closed_form (mean : vec2f) (ls : list vec2f) :
  ls <> [] ->
  draw_chain cosf sinf mean ls
  = Some (flat_map ring ls ++ ring mean ++ flat_map quad_of (all_segments mean ls)).
Proof.
  destruct ls as [|a rest]; [congruence|]. intros _.
  unfold draw_chain, all_segments.
  replace (length (a :: rest) - 1) with (length rest) by (cbn; lia).
  rewrite (nth_error_last rest a a).
  rewrite draw_points_app, DrawPoint_app, draw_segments_app, DrawLine_app.
  cbn [app]. rewrite flat_map_app. cbn [flat_map]. rewrite app_nil_r.
  now rewrite <- !app_assoc.
Qed.

Lemma chain_segments_length (prev : vec2f) (rest : list vec2f) :
  length (chain_segments prev rest) = length rest.
Proof.
  revert prev. induction rest as [|v tl IH]; intros prev; cbn; [reflexivity|].
  now rewrite IH.
Qed.

Lemma all_segments_length (mean : vec2f) (ls : list vec2f) :
  length (all_segments mean ls) = length ls.
Proof.
  destruct ls as [|a rest]; [reflexivity|].
  unfold all_segments. rewrite length_app, chain_segments_length. cbn. lia.
Qed.

Lemma quad_of_length (s : vec2f * vec2f) :
  length (quad_of s) = if coincides (fst s) (snd s) then 0 else 8.
Proof.
  unfold quad_of, DrawLine, coincides. cbv zeta. rewrite norm_perp.
  destruct (eqb _ f0); reflexivity.
Qed.

Lemma segments_length (segs : list (vec2f * vec2f)) :
  length (flat_map quad_of segs)
  = 8 * length (filter (fun s => negb (coincides (fst s) (snd s))) segs).
Proof.
  induction segs as [|s segs IH]; [reflexivity|].
  cbn [flat_map filter]. rewrite length_app, quad_of_length, IH.
  destruct (coincides (fst s) (snd s)); cbn [negb length]; lia.
Qed.

Lemma filter_all_length (A : Type) (f : A -> bool) (l : list A) :
  length (filter f l) <= length l /\
  (length (filter f l) = length l <-> Forall (fun a => f a = true) l).
Proof.
  induction l as [|a l [IHle IHeq]]; cbn [filter length].
  - split; [lia|]. split; [constructor | reflexivity].
  - destruct (f a) eqn:E; cbn [length].
    + split; [lia|]. split.
      * intros H. constructor; [exact E | apply IHeq; lia].
      * intros H. inversion H; subst. f_equal. now apply IHeq.
    + split; [lia|]. split; [lia|].
      intros H. inversion H; subst. congruence.
Qed.

Lemma rings_length (ls : list vec2f) :
  length (flat_map ring ls) = 8 * kPointNodes * length ls.
Proof.
  induction ls as [|a ls IH]; cbn [flat_map length]; [lia|].
  rewrite length_app, IH. unfold ring at 1. rewrite ring_length. lia.
Qed.

(** The length of the buffer: a ring for every vertex and for [mean], a
    quad for every segment whose ends do not coincide. *)
Lemma draw_chain_length (mean : vec2f) (ls : list vec2f) (vd : list float) :
  draw_chain cosf sinf mean ls = Some vd ->
  ls <> [] /\
  length vd
  = 8 * kPointNodes * (length ls + 1)
    + 8 * length (filter (fun s => negb (coincides (fst s) (snd s)))
                         (all_segments mean ls)).
Proof.
  intros H. assert (Hne : ls <> []) by (destruct ls; [discriminate | congruence]).
  split; [exact Hne|].
  rewrite (draw_chain_closed_form mean Hne) in H.
  apply some_eq in H. rewrite <- H, !length_app, segments_length, rings_length.
  unfold ring. rewrite ring_length. lia.
Qed.

(** With a non-empty point set the selection always finds an element of
    [points] at [closest], and leaves a non-empty chain. *)
Lemma extend_total (points : list vec2f) (mean : vec2f) (ls0 : list vec2f) :
  points <> [] ->
  exists ls', extend atan2f points mean ls0 = Some ls' /\ ls' <> [].
Proof.
  intros Hne. destruct ls0 as [|a tl].
  - destruct points as [|p0 ps]; [congruence|]. exists [p0]. split; [reflexivity | discriminate].
  - assert (Hl : nth_error (a :: tl) (length (a :: tl) - 1) = Some (last (a :: tl) a)).
    { replace (length (a :: tl) - 1) with (length tl) by (cbn; lia).
      apply nth_error_last. }
    rewrite (extend_last atan2f points mean _ Hl).
    pose proof (select_in_range atan2f mean (last (a :: tl) a) Hne) as Hc.
    destruct (select atan2f points mean (last (a :: tl) a)) as [c m]. cbn [fst] in Hc.
    destruct (nth_error points c) as [w|] eqn:Hw; [|apply nth_error_None in Hw; lia].
    eexists. split; [reflexivity|].
    destruct (ltb m f90 && (length (a :: tl) =? 1)); [discriminate|].
    intros H. apply app_eq_nil in H. destruct H; discriminate.
Qed.

Lemma SolverStep_total (points : list vec2f) (mean : vec2f) (ls : list vec2f) :
  points <> [] ->
  exists b ls', SolverStep atan2f points mean ls = Some (b, ls') /\ ls' <> [].
Proof.
  intros Hne. unfold SolverStep.
  destruct (closure_check ls) as [|idx|] eqn:Hc.
  - exists false, ls. split; [reflexivity|]. intros ->. discriminate.
  - destruct (extend_total mean (erase_prefix idx ls) Hne) as (ls' & -> & Hls').
    now exists true, ls'.
  - destruct (extend_total mean ls Hne) as (ls' & -> & Hls').
    now exists true, ls'.
Qed.

(** What [SolverStep_buffers] returns in terms of [SolverStep]. *)
Lemma SolverStep_buffers_spec (points : list vec2f) (mean : vec2f)
      (ls : list vec2f) (vd : list float) (b : bool) (ls' : list vec2f) (vd' : list float) :
  SolverStep_buffers atan2f cosf sinf points mean ls vd = Some (b, ls', vd') ->
  SolverStep atan2f points mean ls = Some (b, ls') /\
  (if b then draw_chain cosf sinf mean ls' = Some vd' else vd' = vd).
Proof.
  unfold SolverStep_buffers.
  destruct (SolverStep atan2f points mean ls) as [[[] l1]|]; [| |discriminate].
  - destruct (draw_chain cosf sinf mean l1) as [v1|] eqn:E; [|discriminate].
    intros H. injection H as <- <- <-. auto.
  - intros H. injection H as <- <- <-. auto.
Qed.

End Buffers.
(** X9.  A call of [SolverStep] rebuilds [vertices_d] as: the ring of every
    vertex of the chain, in order; the ring of [mean]; then, for every
    vertex after the first, the quad of the segment to the vertex before it,
    and last the quad of the segment from [mean] to the last vertex, a
    segment whose ends coincide contributing nothing. *)
Theorem draw_chain_layout :
  forall (cosf sinf : float -> float) (mean : vec2f) (ls : list vec2f),
    ls <> [] ->
    draw_chain cosf sinf mean ls
    = Some (flat_map (fun p => DrawPoint cosf sinf p []) ls
            ++ DrawPoint cosf sinf mean []
            ++ flat_map (fun s => DrawLine (fst s) (snd s) []) (all_segments mean ls)).
Proof.
  intros cosf sinf mean ls Hne. now apply draw_chain_closed_form.
Qed.

Lemma draw_chain_layout_witness :
  draw_chain cosf_table sinf_table origin [pE; pN]
  = Some (flat_map (fun p => DrawPoint cosf_table sinf_table p []) [pE; pN]
          ++ DrawPoint cosf_table sinf_table origin []
          ++ flat_map (fun s => DrawLine (fst s) (snd s) []) (all_segments origin [pE; pN])).
Proof.
  apply (@draw_chain_layout cosf_table sinf_table origin [pE; pN]). discriminate.
Defined.

(** X10.  With a non-empty point set no call of [SolverStep] reads a vector
    out of range: every call returns, and leaves a chain that is not empty
    (so that [line_segments.size()-1] does not wrap round in [main]). *)
Theorem SolverStep_buffers_returns :
  forall (atan2f : float -> float -> float) (cosf sinf : float -> float)
         (points : list vec2f) (mean : vec2f) (ls : list vec2f) (vd : list float),
    points <> [] ->
    exists b ls' vd',
      SolverStep_buffers atan2f cosf sinf points mean ls vd = Some (b, ls', vd') /\
      ls' <> [].
Proof.
  intros atan2f cosf sinf points mean ls vd Hne.
  destruct (SolverStep_total atan2f mean ls Hne) as (b & ls' & Hstep & Hls').
  unfold SolverStep_buffers. rewrite Hstep. destruct b.
  - rewrite (draw_chain_closed_form cosf sinf mean Hls'). eauto.
  - eauto.
Qed.

Lemma SolverStep_buffers_returns_witness :
  exists b ls' vd',
    SolverStep_buffers atan2f_table cosf_table sinf_table square origin [pE] []
    = Some (b, ls', vd') /\ ls' <> [].
Proof.
  apply (@SolverStep_buffers_returns atan2f_table cosf_table sinf_table square origin [pE] []).
  discriminate.
Defined.

(** ** The vertex ranges [main] draws (lines 269-291) *)

Lemma u32_small (z : Z) : (0 <= z < 2 ^ 32)%Z -> u32 z = z.
Proof. intros H. unfold u32. now apply Z.mod_small. Qed.

(** The calls made for a chain of [S m] vertices, without the reductions
    modulo [2^32], which do nothing below a million vertices. *)
Lemma dynamic_draw_calls_small (m : nat) :
  (Z.of_nat (S m) <= 1000000)%Z ->
  dynamic_draw_calls (S m)
  = Some (map (fun i => (288 * (Z.of_nat (S m) + 1) + 4 * Z.of_nat i, 4)%Z) (seq 0 m)
          ++ [(288 * (Z.of_nat (S m) + 1) + 4 * Z.of_nat m, 4)%Z]
          ++ map (fun i => (288 * Z.of_nat i, 288)%Z) (seq 0 m)
          ++ [(288 * Z.of_nat m, 288)%Z; (288 * Z.of_nat (S m), 288)%Z]).
Proof.
  intros Hm. unfold dynamic_draw_calls.
  replace (2 ^ 32 <=? Z.of_nat (S m))%Z with false by (symmetry; apply Z.leb_gt; lia).
  cbv zeta. change (Z.of_nat kPointNodes) with 72%Z.
  rewrite (@u32_small (Z.of_nat (S m))) by lia.
  rewrite (@u32_small (4 * (Z.of_nat (S m) + 1) * 72)) by lia.
  rewrite (@u32_small (4 * 72)) by lia.
  f_equal. f_equal; [|f_equal; [|f_equal]].
  - apply map_ext_in. intros i Hi. apply in_seq in Hi.
    rewrite u32_small by lia. f_equal. lia.
  - rewrite u32_small by lia. do 2 f_equal. lia.
  - apply map_ext_in. intros i Hi. apply in_seq in Hi.
    rewrite u32_small by lia. f_equal. lia.
  - rewrite !u32_small by lia.
    replace (4 * (Z.of_nat (S m) - 1) * 72)%Z with (288 * Z.of_nat m)%Z by lia.
    replace (4 * Z.of_nat (S m) * 72)%Z with (288 * Z.of_nat (S m))%Z by lia.
    reflexivity.
Qed.

Lemma draw_calls_in_buffer_iff :
  forall (cosf sinf : float -> float) (mean : vec2f) (ls : list vec2f) (vd : list float),
    draw_chain cosf sinf mean ls = Some vd ->
    (Z.of_nat (length ls) <= 1000000)%Z ->
    exists calls,
      dynamic_draw_calls (length ls) = Some calls /\
      (Forall (in_buffer vd) calls <->
       Forall (fun s => coincides (fst s) (snd s) = false) (all_segments mean ls)).
Proof.
  intros cosf sinf mean ls vd Hvd Hlen.
  destruct (draw_chain_length cosf sinf mean ls Hvd) as [Hne HL].
  set (drawn := fun s : vec2f * vec2f => negb (coincides (fst s) (snd s))) in *.
  destruct (filter_all_length drawn (all_segments mean ls)) as [Hle Hall].
  rewrite all_segments_length in Hle, Hall.
  assert (Hiff : Forall (fun s => drawn s = true) (all_segments mean ls) <->
                 Forall (fun s => coincides (fst s) (snd s) = false) (all_segments mean ls)).
  { split; apply Forall_impl; intros s; unfold drawn;
      destruct (coincides (fst s) (snd s)); cbn; congruence. }
  destruct ls as [|a rest]; [congruence|].
  set (m := length rest) in *.
  change (length (a :: rest)) with (S m) in *.
  set (k := length (filter drawn (all_segments mean (a :: rest)))) in *.
  eexists. split; [apply dynamic_draw_calls_small; exact Hlen|].
  change kPointNodes with 72 in HL.
  rewrite <- Hiff, <- Hall. unfold in_buffer. split.
  - intros H. apply Forall_app in H as [_ H]. apply Forall_app in H as [H _].
    apply Forall_inv in H. cbn [fst snd] in H. lia.
  - intros Hk. rewrite !Forall_app. repeat split.
    + apply Forall_forall. intros c Hc. apply in_map_iff in Hc.
      destruct Hc as (i & <- & Hi). apply in_seq in Hi. cbn [fst snd]. lia.
    + constructor; [cbn [fst snd]; lia | constructor].
    + apply Forall_forall. intros c Hc. apply in_map_iff in Hc.
      destruct Hc as (i & <- & Hi). apply in_seq in Hi. cbn [fst snd]. lia.
    + constructor; [cbn [fst snd]; lia|].
      constructor; [cbn [fst snd]; lia | constructor].
Qed.




(** ** The frames [main] saves (lines 256-312) *)

Lemma string_length_append (a b : String.string) :
  String.length (String.append a b) = String.length a + String.length b.
Proof. induction a as [|c a IH]; cbn; [reflexivity | now rewrite IH]. Qed.

Lemma string_append_cancel_r (s a : String.string) :
  forall b, String.append a s = String.append b s -> a = b.
Proof.
  induction a as [|c a IH]; intros [|d b] H; cbn in H.
  - reflexivity.
  - apply (f_equal String.length) in H. cbn in H.
    rewrite string_length_append in H. lia.
  - apply (f_equal String.length) in H. cbn in H.
    rewrite string_length_append in H. lia.
  - injection H as -> H. f_equal. now apply IH.
Qed.

Lemma to_string_injective (j k : Z) : to_string j = to_string k -> j = k.
Proof.
  unfold to_string. intros H.
  apply (f_equal DecimalString.NilEmpty.int_of_string) in H.
  rewrite !DecimalString.NilEmpty.isi in H. injection H as H.
  apply (f_equal Z.of_int) in H. now rewrite !DecimalZ.of_to in H.
Qed.

Lemma frame_name_injective (j k : Z) : frame_name j = frame_name k -> j = k.
Proof.
  unfold frame_name. intros H.
  apply string_append_cancel_r in H. cbn in H.
  injection H as H. now apply to_string_injective.
Qed.

Lemma frame_names_succ (k : Z) :
  (0 <= k)%Z -> frame_names (k + 1) = frame_names k ++ [frame_name (k + 1)].
Proof.
  intros Hk. unfold frame_names.
  replace (Z.to_nat (k + 1)) with (S (Z.to_nat k)) by lia.
  rewrite seq_S, map_app. cbn [map]. do 3 f_equal. lia.
Qed.

Lemma frame_names_NoDup (k : Z) : NoDup (frame_names k).
Proof.
  unfold frame_names. generalize (seq_NoDup (Z.to_nat k) 1).
  induction (seq 1 (Z.to_nat k)) as [|i l IH]; intros Hnd; cbn [map]; [constructor|].
  inversion Hnd as [|i' l' Hi Hl]; subst. constructor; [|now apply IH].
  intros Hin. apply in_map_iff in Hin. destruct Hin as (j & Hj & Hjl).
  apply frame_name_injective in Hj. apply Nat2Z.inj in Hj. now subst j.
Qed.

Section MainLoop.

Variable atan2f : float -> float -> float.
Variables cosf sinf : float -> float.
Variable points : list vec2f.
Variable mean : vec2f.

Let invariant := main_invariant atan2f cosf sinf points mean.
Let iteration := main_iteration atan2f cosf sinf points mean.
Let loop := main_loop atan2f cosf sinf points mean.

Lemma main_init_invariant : invariant main_init.
Proof.
  unfold invariant, main_invariant. cbn. repeat split; try reflexivity; try lia.
  - discriminate.
  - now exists 0, true.
  - now left.
Qed.

(** One iteration keeps the invariant, raises [k] by one at most, and leaves
    a state in which [vertices_d] has been built. *)
Lemma main_iteration_invariant (t : F64.double) (st st' : main_state) :
  invariant st -> iteration t st = Some st' ->
  invariant st' /\
  (ms_k st <= ms_k st' <= ms_k st + 1)%Z /\
  dynamic_draw_calls (length (ms_line_segments st')) <> None /\
  draw_chain cosf sinf mean (ms_line_segments st') = Some (ms_vertices_d st').
Proof.
  intros (Hsaved & Hk & Hfiles & (n & b0 & Hrun) & Hbuf) Hit.
  unfold iteration, main_iteration in Hit.
  destruct (F64.leb (ms_prev_time st) (F64.sub t kAnime)).
  - destruct (SolverStep_buffers atan2f cosf sinf points mean
                (ms_line_segments st) (ms_vertices_d st)) as [[[b ls] vd]|] eqn:Hstep;
      [|discriminate].
    apply SolverStep_buffers_spec in Hstep. destruct Hstep as [Hstep Hvd].
    destruct (ms_k st + Z.b2z b <=? INT_MAX)%Z eqn:Hmax; [|discriminate].
    apply Z.leb_le in Hmax.
    destruct (dynamic_draw_calls (length ls)) as [calls|] eqn:Hcalls; [|discriminate].
    assert (Hrun' : exists n' b', run atan2f points mean n' [] = Some (b', ls)).
    { exists (S n), b. cbn [run]. now rewrite Hrun. }
    destruct b; cbn [Z.b2z] in *.
    + (* the call returned [true]: a frame is saved *)
      destruct (ms_k st + 1 =? ms_k_saved st)%Z eqn:E; [apply Z.eqb_eq in E; lia|].
      injection Hit as <-. cbn [ms_line_segments ms_vertices_d ms_k].
      split; [|split; [lia | split; [rewrite Hcalls; discriminate | exact Hvd]]].
      unfold invariant, main_invariant. cbn.
      split; [reflexivity|]. split; [lia|].
      split; [rewrite Hfiles; symmetry; apply frame_names_succ; lia|].
      split; [exact Hrun'|]. right. split; [rewrite Hcalls; discriminate | exact Hvd].
    + (* the call returned [false]: nothing changes *)
      apply SolverStep_false in Hstep as Hdone. destruct Hdone as [Hclosed ->].
      assert (Hold : draw_chain cosf sinf mean (ms_line_segments st) = Some vd).
      { subst vd. destruct Hbuf as [-> | [_ H]]; [discriminate Hclosed | exact H]. }
      rewrite Z.add_0_r in *.
      destruct (ms_k st =? ms_k_saved st)%Z eqn:E; [|apply Z.eqb_neq in E; lia].
      injection Hit as <-. cbn [ms_line_segments ms_vertices_d ms_k].
      split; [|split; [lia | split; [rewrite Hcalls; discriminate | exact Hold]]].
      unfold invariant, main_invariant. cbn.
      split; [exact Hsaved|]. split; [lia|]. split; [exact Hfiles|].
      split; [exact Hrun'|]. right. split; [rewrite Hcalls; discriminate | exact Hold].
  - (* [kAnime] has not elapsed: no call *)
    destruct (dynamic_draw_calls (length (ms_line_segments st))) as [calls|] eqn:Hcalls;
      [|discriminate].
    assert (Hold : draw_chain cosf sinf mean (ms_line_segments st) = Some (ms_vertices_d st)).
    { destruct Hbuf as [-> | [_ H]]; [discriminate Hcalls | exact H]. }
    destruct (ms_k st =? ms_k_saved st)%Z eqn:E; [|apply Z.eqb_neq in E; lia].
    injection Hit as <-. cbn [ms_line_segments ms_vertices_d ms_k].
    split; [|split; [lia | split; [rewrite Hcalls; discriminate | exact Hold]]].
    unfold invariant, main_invariant. cbn.
    split; [exact Hsaved|]. split; [lia|]. split; [exact Hfiles|].
    split; [now exists n, b0|]. right. split; [rewrite Hcalls; discriminate | exact Hold].
Qed.

Lemma main_loop_invariant (times : list F64.double) :
  forall st st',
    invariant st -> loop times st = Some st' ->
    invariant st' /\ (ms_k st <= ms_k st' <= ms_k st + Z.of_nat (length times))%Z.
Proof.
  induction times as [|t times IH]; intros st st' Hinv Hloop.
  - cbn in Hloop. injection Hloop as <-. split; [exact Hinv | cbn; lia].
  - unfold loop in Hloop. cbn [main_loop] in Hloop.
    destruct (main_iteration atan2f cosf sinf points mean t st) as [st1|] eqn:Hit;
      [|discriminate].
    destruct (main_iteration_invariant t Hinv Hit) as (Hinv1 & Hk1 & _).
    destruct (IH st1 st' Hinv1 Hloop) as [Hinv' Hk'].
    split; [exact Hinv'|]. cbn [length]. lia.
Qed.

(** After an iteration [vertices_d] has been built. *)
Lemma main_loop_buffer (times : list F64.double) :
  forall st st',
    invariant st -> times <> [] -> loop times st = Some st' ->
    dynamic_draw_calls (length (ms_line_segments st')) <> None /\
    draw_chain cosf sinf mean (ms_line_segments st') = Some (ms_vertices_d st').
Proof.
  induction times as [|t times IH]; intros st st' Hinv Hne Hloop; [congruence|].
  unfold loop in Hloop. cbn [main_loop] in Hloop.
  destruct (main_iteration atan2f cosf sinf points mean t st) as [st1|] eqn:Hit;
    [|discriminate].
  destruct (main_iteration_invariant t Hinv Hit) as (Hinv1 & _ & Hcalls & Hvd).
  destruct times as [|t' times].
  - cbn in Hloop. injection Hloop as <-. now split.
  - apply (IH st1 st' Hinv1); [discriminate | exact Hloop].
Qed.

(** Once a call has returned [false], an iteration changes nothing but
    [prev_time]. *)
Lemma main_iteration_done (t : F64.double) (st : main_state) :
  invariant st -> closure_check (ms_line_segments st) = ScanReturn ->
  exists st',
    iteration t st = Some st' /\
    ms_line_segments st' = ms_line_segments st /\
    ms_vertices_d st' = ms_vertices_d st /\
    ms_k st' = ms_k st /\ ms_k_saved st' = ms_k_saved st /\
    ms_files st' = ms_files st.
Proof.
  intros (Hsaved & Hk & Hfiles & _ & Hbuf) Hclosed.
  destruct Hbuf as [-> | [Hcalls Hvd]]; [discriminate Hclosed|].
  destruct (dynamic_draw_calls (length (ms_line_segments st))) as [calls|] eqn:Ecalls;
    [|congruence].
  unfold iteration, main_iteration.
  destruct (F64.leb (ms_prev_time st) (F64.sub t kAnime)).
  - unfold SolverStep_buffers, SolverStep. rewrite Hclosed. cbn [Z.b2z].
    rewrite Z.add_0_r.
    replace (ms_k st <=? INT_MAX)%Z with true by (symmetry; apply Z.leb_le; lia).
    rewrite Ecalls.
    replace (ms_k st =? ms_k_saved st)%Z with true by (symmetry; apply Z.eqb_eq; lia).
    eexists. split; [reflexivity|]. cbn. auto.
  - rewrite Ecalls.
    replace (ms_k st =? ms_k_saved st)%Z with true by (symmetry; apply Z.eqb_eq; lia).
    eexists. split; [reflexivity|]. cbn. auto.
Qed.

Lemma main_loop_done (times : list F64.double) :
  forall st,
    invariant st -> closure_check (ms_line_segments st) = ScanReturn ->
    exists st',
      loop times st = Some st' /\
      ms_line_segments st' = ms_line_segments st /\
      ms_vertices_d st' = ms_vertices_d st /\
      ms_k st' = ms_k st /\ ms_files st' = ms_files st.
Proof.
  induction times as [|t times IH]; intros st Hinv Hclosed.
  - exists st. now repeat split.
  - destruct (main_iteration_done t Hinv Hclosed)
      as (st1 & Hit & Hls & Hvd & Hk & Hks & Hf).
    destruct (main_iteration_invariant t Hinv Hit) as (Hinv1 & _).
    rewrite <- Hls in Hclosed.
    destruct (IH st1 Hinv1 Hclosed) as (st' & Hloop & Hls' & Hvd' & Hk' & Hf').
    exists st'. unfold loop. cbn [main_loop].
    unfold iteration in Hit. rewrite Hit.
    split; [exact Hloop|]. repeat split; congruence.
Qed.

End MainLoop.

(** X12.  Different frame numbers give different file names: no saved frame
    overwrites another. *)
Theorem frame_names_are_distinct :
  forall j k : Z, j <> k -> frame_name j <> frame_name k.
Proof.
  intros j k Hjk H. apply Hjk. now apply frame_name_injective.
Qed.

Lemma frame_names_are_distinct_witness : frame_name 1%Z <> frame_name 12%Z.
Proof. apply (@frame_names_are_distinct 1%Z 12%Z). discriminate. Defined.

(** X13.  After any number of iterations of the loop of [main], [k_saved] is
    equal to [k], [k] is at most the number of iterations, and the files
    written so far are [out/1.png], ..., [out/k.png], in this order, each
    written once. *)
Theorem main_frames_are_numbered :
  forall (atan2f : float -> float -> float) (cosf sinf : float -> float)
         (points : list vec2f) (mean : vec2f) (times : list F64.double) (st : main_state),
    main_loop atan2f cosf sinf points mean times main_init = Some st ->
    ms_k_saved st = ms_k st /\
    (0 <= ms_k st <= Z.of_nat (length times))%Z /\
    ms_files st = map (fun i => frame_name (Z.of_nat i)) (seq 1 (Z.to_nat (ms_k st))) /\
    NoDup (ms_files st).
Proof.
  intros atan2f cosf sinf points mean times st Hloop.
  destruct (@main_loop_invariant atan2f cosf sinf points mean times main_init st
              (main_init_invariant atan2f cosf sinf points mean) Hloop)
    as [(Hsaved & Hk & Hfiles & _) Hbound].
  cbn [ms_k main_init] in Hbound.
  split; [exact Hsaved|]. split; [lia|]. split; [exact Hfiles|].
  rewrite Hfiles. apply frame_names_NoDup.
Qed.

Lemma main_frames_are_numbered_witness :
  exists st,
    main_loop atan2f_table cosf_table sinf_table square origin (clock 9) main_init = Some st /\
    ms_k_saved st = ms_k st /\
    (0 <= ms_k st <= Z.of_nat (length (clock 9)))%Z /\
    ms_files st = map (fun i => frame_name (Z.of_nat i)) (seq 1 (Z.to_nat (ms_k st))) /\
    NoDup (ms_files st).
Proof.
  assert (Hk : option_map ms_k
                 (main_loop atan2f_table cosf_table sinf_table square origin (clock 9)
                            main_init) = Some 5%Z) by (vm_compute; reflexivity).
  destruct (main_loop atan2f_table cosf_table sinf_table square origin (clock 9) main_init)
    as [st|] eqn:Hloop; [|discriminate].
  exists st. split; [reflexivity|].
  exact (@main_frames_are_numbered _ _ _ _ _ _ _ Hloop).
Defined.

(** X14.  After every iteration of the loop of [main], [vertices_d] holds
    the geometry built from the current [line_segments], also when the last
    call of [SolverStep] returned [false] or no call was due; and
    [line_segments] is a chain that calls of [SolverStep] reach from the
    empty chain. *)
Theorem main_buffer_follows_the_chain :
  forall (atan2f : float -> float -> float) (cosf sinf : float -> float)
         (points : list vec2f) (mean : vec2f) (t : F64.double) (times : list F64.double)
         (st : main_state),
    main_loop atan2f cosf sinf points mean (t :: times) main_init = Some st ->
    draw_chain cosf sinf mean (ms_line_segments st) = Some (ms_vertices_d st) /\
    exists n b, run atan2f points mean n [] = Some (b, ms_line_segments st).
Proof.
  intros atan2f cosf sinf points mean t times st Hloop.
  pose proof (main_init_invariant atan2f cosf sinf points mean) as Hinit.
  destruct (@main_loop_invariant atan2f cosf sinf points mean (t :: times) main_init st
              Hinit Hloop) as [(_ & _ & _ & Hrun & _) _].
  assert (Hne : t :: times <> []) by discriminate.
  destruct (@main_loop_buffer atan2f cosf sinf points mean (t :: times) main_init st
              Hinit Hne Hloop) as [_ Hvd].
  split; [exact Hvd | exact Hrun].
Qed.

Lemma main_buffer_follows_the_chain_witness :
  exists st,
    main_loop atan2f_table cosf_table sinf_table square origin (clock 9) main_init = Some st /\
    draw_chain cosf_table sinf_table origin (ms_line_segments st) = Some (ms_vertices_d st) /\
    exists n b, run atan2f_table square origin n [] = Some (b, ms_line_segments st).
Proof.
  assert (Hk : option_map ms_k
                 (main_loop atan2f_table cosf_table sinf_table square origin (clock 9)
                            main_init) = Some 5%Z) by (vm_compute; reflexivity).
  destruct (main_loop atan2f_table cosf_table sinf_table square origin (clock 9) main_init)
    as [st|] eqn:Hloop; [|discriminate].
  exists st. split; [reflexivity|].
  change (clock 9) with (eighth 0 :: clock_from 1 8) in Hloop.
  exact (@main_buffer_follows_the_chain _ _ _ _ _ _ _ _ Hloop).
Defined.

(** X15.  Once a call of [SolverStep] returns [false] on the chain [main]
    holds, no further iteration changes the chain, the buffer or [k], and no
    further file is written. *)
Theorem main_saves_nothing_once_done :
  forall (atan2f : float -> float -> float) (cosf sinf : float -> float)
         (points : list vec2f) (mean : vec2f) (times : list F64.double)
         (st : main_state) (ls : list vec2f),
    main_loop atan2f cosf sinf points mean times main_init = Some st ->
    SolverStep atan2f points mean (ms_line_segments st) = Some (false, ls) ->
    forall more : list F64.double,
    exists st',
      main_loop atan2f cosf sinf points mean more st = Some st' /\
      ms_line_segments st' = ms_line_segments st /\
      ms_vertices_d st' = ms_vertices_d st /\
      ms_k st' = ms_k st /\
      ms_files st' = ms_files st.
Proof.
  intros atan2f cosf sinf points mean times st ls Hloop Hdone more.
  destruct (@main_loop_invariant atan2f cosf sinf points mean times main_init st
              (main_init_invariant atan2f cosf sinf points mean) Hloop)
    as [Hinv _].
  apply SolverStep_false in Hdone. destruct Hdone as [Hclosed _].
  exact (@main_loop_done atan2f cosf sinf points mean more st Hinv Hclosed).
Qed.

Lemma main_saves_nothing_once_done_witness :
  exists st st',
    main_loop atan2f_table cosf_table sinf_table square origin (clock 6) main_init = Some st /\
    main_loop atan2f_table cosf_table sinf_table square origin (clock 4) st = Some st' /\
    ms_line_segments st' = ms_line_segments st /\
    ms_vertices_d st' = ms_vertices_d st /\
    ms_k st' = ms_k st /\
    ms_files st' = ms_files st.
Proof.
  assert (Hls : option_map ms_line_segments
                  (main_loop atan2f_table cosf_table sinf_table square origin (clock 6)
                             main_init) = Some [pE; pN; pW; pS; pE])
    by (vm_compute; reflexivity).
  destruct (main_loop atan2f_table cosf_table sinf_table square origin (clock 6) main_init)
    as [st|] eqn:Hloop; [|discriminate].
  cbn [option_map] in Hls. apply some_eq in Hls.
  assert (Hdone : SolverStep atan2f_table square origin (ms_line_segments st)
                  = Some (false, ms_line_segments st))
    by (rewrite Hls; vm_compute; reflexivity).
  destruct (@main_saves_nothing_once_done _ _ _ _ _ _ _ _ Hloop Hdone (clock 4))
    as (st' & H).
  exists st, st'. split; [reflexivity | exact H].
Defined.

(** ** Reading a buffer by ranges of vertices *)

(** In a concatenation of blocks of [c] floats, the [i]-th range of [c]
    floats is the [i]-th block. *)
Lemma block_slice (A : Type) (f : A -> list float) (c : nat) (l : list A) :
  (forall a, In a l -> length (f a) = c) ->
  forall i d, i < length l ->
    firstn c (skipn (c * i) (flat_map f l)) = f (nth i l d).
Proof.
  induction l as [|a l IH]; intros Hf i d Hi; [cbn in Hi; lia|].
  assert (Ha : length (f a) = c) by (apply Hf; now left).
  cbn [flat_map]. destruct i as [|i].
  - rewrite Nat.mul_0_r. cbn [skipn nth].
    rewrite firstn_app, <- Ha, Nat.sub_diag, firstn_all. cbn [firstn].
    now rewrite app_nil_r.
  - cbn [nth]. rewrite skipn_app, Ha.
    rewrite skipn_all2 by lia. cbn [app].
    replace (c * S i - c) with (c * i) by lia.
    apply IH; [intros b Hb; apply Hf; now right | cbn in Hi; lia].
Qed.

Lemma map_nth_seq (A : Type) (d : A) (l : list A) :
  map (fun i => nth i l d) (seq 0 (length l)) = l.
Proof.
  induction l as [|a l IH]; [reflexivity|].
  cbn [length seq map nth]. f_equal.
  rewrite <- seq_shift, map_map. exact IH.
Qed.

(** The blocks read one after the other are the blocks written. *)
Lemma block_slices (A : Type) (f : A -> list float) (c : nat) (l : list A) (tail : list float) :
  (forall a, In a l -> length (f a) = c) ->
  map (fun i => firstn c (skipn (c * i) (flat_map f l ++ tail))) (seq 0 (length l))
  = map f l.
Proof.
  intros Hf. destruct l as [|a0 l0] eqn:El; [reflexivity|]. rewrite <- El in *.
  assert (Hlen : length (flat_map f l) = c * length l).
  { clear El. induction l as [|a l IH]; cbn [flat_map length]; [lia|].
    rewrite length_app, (Hf a (or_introl eq_refl)), IH; [lia|].
    intros b Hb. apply Hf. now right. }
  transitivity (map f (map (fun i => nth i l a0) (seq 0 (length l))));
    [|now rewrite map_nth_seq].
  rewrite map_map.
  apply map_ext_in. intros i Hi. apply in_seq in Hi.
  rewrite <- (@block_slice _ f c l Hf i a0) by lia.
  rewrite skipn_app, firstn_app.
  replace (c * i - length (flat_map f l)) with 0 by nia.
  rewrite length_skipn. cbn [skipn].
  replace (c - (length (flat_map f l) - c * i)) with 0 by nia.
  cbn [firstn]. now rewrite app_nil_r.
Qed.

(** ** [GenerateData] (lines 141-155) *)

Section Generate.

Variables cosf sinf : float -> float.
Variable G : Type.
Variable dist : G -> float * G.

Lemma draws_two (n : nat) (gen : G) :
  draws dist (2 * S n) gen
  = fst (dist gen) :: fst (dist (snd (dist gen)))
    :: draws dist (2 * n) (snd (dist (snd (dist gen)))).
Proof. replace (2 * S n) with (S (S (2 * n))) by lia. reflexivity. Qed.

Lemma pair_up_draws_length (n : nat) :
  forall gen, length (pair_up (draws dist (2 * n) gen)) = n.
Proof.
  induction n as [|n IH]; intros gen; [reflexivity|].
  rewrite draws_two. cbn [pair_up length]. now rewrite IH.
Qed.

Lemma GenerateData_loop_spec (n : nat) :
  forall gen points mean vertices,
    snd (GenerateData_loop cosf sinf dist n gen points mean vertices)
    = (points ++ pair_up (draws dist (2 * n) gen),
       fold_left (fun m p =>
                    vec_add m (vec_scale p (div (of_Z 1) (of_Z (Z.of_nat kSamples)))))
                 (pair_up (draws dist (2 * n) gen)) mean,
       vertices ++ flat_map (fun p => DrawPoint cosf sinf p [])
                            (pair_up (draws dist (2 * n) gen))).
Proof.
  induction n as [|n IH]; intros gen points mean vertices.
  - cbn. now rewrite !app_nil_r.
  - rewrite draws_two. cbn [GenerateData_loop pair_up fold_left flat_map].
    destruct (dist gen) as [px gen1]. cbn [fst snd].
    destruct (dist gen1) as [py gen2]. cbn [fst snd].
    rewrite IH, DrawPoint_app, <- !app_assoc. reflexivity.
Qed.

Lemma GenerateData_spec (gen : G) :
  snd (GenerateData cosf sinf dist gen)
  = (pair_up (draws dist (2 * kSamples) gen),
     fold_left (fun m p =>
                  vec_add m (vec_scale p (div (of_Z 1) (of_Z (Z.of_nat kSamples)))))
               (pair_up (draws dist (2 * kSamples) gen)) (mkvec zero zero),
     flat_map (fun p => DrawPoint cosf sinf p [])
              (pair_up (draws dist (2 * kSamples) gen))).
Proof. unfold GenerateData. rewrite GenerateData_loop_spec. reflexivity. Qed.

Lemma pair_inj (A B : Type) (a c : A) (b d : B) : (a, b) = (c, d) -> a = c /\ b = d.
Proof. intros H. now inversion H. Qed.

(** What [GenerateData] leaves in the globals. *)
Lemma GenerateData_globals (gen gen' : G) (points : list vec2f) (mean : vec2f)
      (vertices : list float) :
  GenerateData cosf sinf dist gen = (gen', (points, mean, vertices)) ->
  points = pair_up (draws dist (2 * kSamples) gen) /\
  length points = kSamples /\
  mean = GenerateData_mean (Z.of_nat kSamples) points /\
  vertices = flat_map (fun p => DrawPoint cosf sinf p []) points.
Proof.
  intros H. pose proof (GenerateData_spec gen) as S.
  rewrite H in S. cbn [snd] in S.
  apply pair_inj in S. destruct S as [S Hv]. apply pair_inj in S. destruct S as [Hp Hm].
  rewrite <- Hp in Hm, Hv.
  split; [exact Hp|]. split; [rewrite Hp; apply pair_up_draws_length|].
  split; [exact Hm | exact Hv].
Qed.

End Generate.

(** X16.  [GenerateData] draws [2 * kSamples] numbers and takes them two by
    two as the [x] and the [y] of a point, in this order; it leaves
    [kSamples] points, in [mean] the sum of the points each scaled by
    [1/kSamples], and in [vertices] the rings of the points one after the
    other, [2*4*kPointNodes*kSamples] floats, the capacity reserved at line
    144. *)
Theorem GenerateData_output :
  forall (cosf sinf : float -> float) (G : Type) (dist : G -> float * G) (gen gen' : G)
         (points : list vec2f) (mean : vec2f) (vertices : list float),
    GenerateData cosf sinf dist gen = (gen', (points, mean, vertices)) ->
    points = pair_up (draws dist (2 * kSamples) gen) /\
    length points = kSamples /\
    mean = GenerateData_mean (Z.of_nat kSamples) points /\
    vertices = flat_map (fun p => DrawPoint cosf sinf p []) points /\
    length vertices = 2 * 4 * kPointNodes * kSamples.
Proof.
  intros cosf sinf G dist gen gen' points mean vertices H.
  destruct (@GenerateData_globals cosf sinf G dist gen gen' points mean vertices H)
    as (Hp & Hl & Hm & Hv).
  split; [exact Hp|]. split; [exact Hl|]. split; [exact Hm|]. split; [exact Hv|].
  rewrite Hv, rings_length, Hl. reflexivity.
Qed.

Lemma GenerateData_output_witness :
  exists gen' points mean vertices,
    GenerateData cosf_table sinf_table list_dist (map fZ (repeat 1%Z 40))
    = (gen', (points, mean, vertices)) /\
    points = pair_up (draws list_dist (2 * kSamples) (map fZ (repeat 1%Z 40))) /\
    length points = kSamples /\
    mean = GenerateData_mean (Z.of_nat kSamples) points /\
    vertices = flat_map (fun p => DrawPoint cosf_table sinf_table p []) points /\
    length vertices = 2 * 4 * kPointNodes * kSamples.
Proof.
  destruct (GenerateData cosf_table sinf_table list_dist (map fZ (repeat 1%Z 40)))
    as [gen' [[points mean] vertices]] eqn:H.
  exists gen', points, mean, vertices. split; [reflexivity|].
  exact (@GenerateData_output _ _ _ _ _ _ _ _ _ H).
Defined.

(** X17.  Each of the [kSamples] vertex ranges [main] draws from the buffer
    of [GenerateData] (lines 271-272) is the ring of one point: the [i]-th
    call reads the floats [DrawPoint] wrote for [points[i]], all of them and
    no others. *)
Theorem static_draw_calls_read_the_rings :
  forall (cosf sinf : float -> float) (G : Type) (dist : G -> float * G) (gen gen' : G)
         (points : list vec2f) (mean : vec2f) (vertices : list float),
    GenerateData cosf sinf dist gen = (gen', (points, mean, vertices)) ->
    map (slice vertices) static_draw_calls
    = map (fun p => DrawPoint cosf sinf p []) points.
Proof.
  intros cosf sinf G dist gen gen' points mean vertices H.
  destruct (@GenerateData_globals cosf sinf G dist gen gen' points mean vertices H)
    as (_ & Hl & _ & Hv).
  replace static_draw_calls
    with (map (fun i => (288 * Z.of_nat i, 288)%Z) (seq 0 (length points)))
    by (rewrite Hl; vm_compute; reflexivity).
  rewrite map_map.
  rewrite <- (@block_slices _ (fun p => DrawPoint cosf sinf p []) (8 * kPointNodes)
                            points []) by (intros; apply ring_length).
  rewrite app_nil_r, <- Hv.
  apply map_ext. intros i. unfold slice. cbn [fst snd].
  change (8 * kPointNodes) with 576.
  replace (2 * Z.to_nat 288) with 576 by reflexivity.
  replace (2 * Z.to_nat (288 * Z.of_nat i)) with (576 * i) by lia.
  reflexivity.
Qed.

Lemma static_draw_calls_read_the_rings_witness :
  exists gen' points mean vertices,
    GenerateData cosf_table sinf_table list_dist (map fZ (repeat 1%Z 40))
    = (gen', (points, mean, vertices)) /\
    map (slice vertices) static_draw_calls
    = map (fun p => DrawPoint cosf_table sinf_table p []) points.
Proof.
  destruct (GenerateData cosf_table sinf_table list_dist (map fZ (repeat 1%Z 40)))
    as [gen' [[points mean] vertices]] eqn:H.
  exists gen', points, mean, vertices. split; [reflexivity|].
  exact (@static_draw_calls_read_the_rings _ _ _ _ _ _ _ _ _ H).
Defined.

(** X18.  When no segment of the chain has coinciding ends, the vertex
    ranges [main] draws from the buffer of [SolverStep] (lines 277-291) are,
    in the order of the calls: the quad of every segment, the one from
    [mean] to the last vertex last; then the ring of every vertex of the
    chain and the ring of [mean]. Each call reads what [DrawLine] or
    [DrawPoint] wrote for that segment or point, all of it and nothing else.
    *)
Theorem dynamic_draw_calls_read_the_chain :
  forall (cosf sinf : float -> float) (mean : vec2f) (ls : list vec2f) (vd : list float),
    draw_chain cosf sinf mean ls = Some vd ->
    (Z.of_nat (length ls) <= 1000000)%Z ->
    Forall (fun s => coincides (fst s) (snd s) = false) (all_segments mean ls) ->
    exists calls,
      dynamic_draw_calls (length ls) = Some calls /\
      map (slice vd) calls
      = map (fun s => DrawLine (fst s) (snd s) []) (all_segments mean ls)
        ++ map (fun p => DrawPoint cosf sinf p []) (ls ++ [mean]).
Proof.
  intros cosf sinf mean ls vd Hvd Hlen Hall.
  assert (Hne : ls <> []) by (destruct ls; [discriminate | congruence]).
  rewrite (draw_chain_closed_form cosf sinf mean Hne) in Hvd. apply some_eq in Hvd.
  set (ring := fun p => DrawPoint cosf sinf p []) in *.
  set (quad := fun s : vec2f * vec2f => DrawLine (fst s) (snd s) []) in *.
  set (segs := all_segments mean ls) in *.
  assert (Hsegs : length segs = length ls) by apply all_segments_length.
  assert (Hq : forall s, In s segs -> length (quad s) = 8).
  { intros s Hs. rewrite Forall_forall in Hall.
    unfold quad. now rewrite quad_of_length, (Hall s Hs). }
  assert (Hr : forall p, In p (ls ++ [mean]) -> length (ring p) = 576).
  { intros p _. unfold ring. rewrite ring_length. reflexivity. }
  assert (Hvd' : vd = flat_map ring (ls ++ [mean]) ++ (flat_map quad segs ++ [])).
  { rewrite <- Hvd, flat_map_app, app_nil_r. cbn [flat_map].
    now rewrite app_nil_r, <- app_assoc. }
  assert (HRM : length (flat_map ring (ls ++ [mean])) = 576 * (length ls + 1)).
  { unfold ring. rewrite rings_length, length_app. cbn [length]. reflexivity. }
  pose proof (block_slices quad segs [] Hq) as Hlines.
  pose proof (block_slices ring (ls ++ [mean]) (flat_map quad segs ++ []) Hr) as Hrings.
  rewrite <- Hvd' in Hrings. rewrite Hsegs in Hlines. rewrite length_app in Hrings.
  cbn [length] in Hrings.
  destruct ls as [|a rest]; [congruence|].
  set (m := length rest) in *. change (length (a :: rest)) with (S m) in *.
  eexists. split; [apply dynamic_draw_calls_small; exact Hlen|].
  rewrite <- Hlines, <- Hrings.
  replace (S m + 1) with (S (S m)) by lia.
  rewrite (seq_S (S m) 0), (seq_S m 0), !map_app. cbn [map plus].
  rewrite <- !app_assoc. cbn [app].
  assert (Hline : forall i,
             slice vd (288 * (Z.of_nat (S m) + 1) + 4 * Z.of_nat i, 4)%Z
             = firstn 8 (skipn (8 * i) (flat_map quad segs ++ []))).
  { intros i. unfold slice. cbn [fst snd].
    replace (2 * Z.to_nat 4) with 8 by reflexivity.
    replace (2 * Z.to_nat (288 * (Z.of_nat (S m) + 1) + 4 * Z.of_nat i))
      with (576 * (S m + 1) + 8 * i) by lia.
    rewrite Hvd', skipn_app, HRM.
    rewrite skipn_all2 by (rewrite HRM; lia). cbn [app].
    now replace (576 * (S m + 1) + 8 * i - 576 * (S m + 1)) with (8 * i) by lia. }
  assert (Hring : forall i,
             slice vd (288 * Z.of_nat i, 288)%Z = firstn 576 (skipn (576 * i) vd)).
  { intros i. unfold slice. cbn [fst snd].
    replace (2 * Z.to_nat 288) with 576 by reflexivity.
    now replace (2 * Z.to_nat (288 * Z.of_nat i)) with (576 * i) by lia. }
  rewrite !map_map.
  f_equal; [apply map_ext; intros i; apply Hline|].
  rewrite Hline. f_equal.
  f_equal; [apply map_ext; intros i; apply Hring|].
  now rewrite !Hring.
Qed.

Lemma dynamic_draw_calls_read_the_chain_witness :
  exists vd calls,
    draw_chain cosf_table sinf_table origin [pE; pN] = Some vd /\
    dynamic_draw_calls 2 = Some calls /\
    map (slice vd) calls
    = map (fun s => DrawLine (fst s) (snd s) []) (all_segments origin [pE; pN])
      ++ map (fun p => DrawPoint cosf_table sinf_table p []) ([pE; pN] ++ [origin]).
Proof.
  assert (Hne : [pE; pN] <> []) by discriminate.
  pose proof (draw_chain_closed_form cosf_table sinf_table origin Hne) as Hvd.
  assert (Hlen : (Z.of_nat (length [pE; pN]) <= 1000000)%Z) by (cbn; lia).
  assert (Hall : Forall (fun s => coincides (fst s) (snd s) = false)
                        (all_segments origin [pE; pN])).
  { repeat constructor; vm_compute; reflexivity. }
  destruct (@dynamic_draw_calls_read_the_chain cosf_table sinf_table origin [pE; pN] _
              Hvd Hlen Hall) as (calls & Hcalls & Hmap).
  eexists. exists calls. split; [exact Hvd|]. split; [exact Hcalls | exact Hmap].
Defined.

(** ** The chain and the point set *)

(** X19.  Every vertex of a chain reached from the empty chain is an element
    of [points]. *)
Theorem chain_vertices_are_points :
  forall (atan2f : float -> float -> float) (points : list vec2f) (mean : vec2f)
         (n : nat) (b : bool) (ls : list vec2f),
    run atan2f points mean n [] = Some (b, ls) ->
    forall v, In v ls -> In v points.
Proof.
  intros atan2f points mean n.
  induction n as [|n IH]; intros b ls Hrun v Hv; cbn [run] in Hrun.
  - injection Hrun as _ <-. contradiction.
  - destruct (run atan2f points mean n []) as [[b1 ls1]|]; [|discriminate].
    assert (Hin1 : Forall (fun u => In u points) ls1).
    { apply Forall_forall. intros u Hu. now apply (IH b1 ls1). }
    pose proof (@SolverStep_in_points atan2f points mean ls1 ls b Hin1 Hrun) as Hin.
    rewrite Forall_forall in Hin. now apply Hin.
Qed.

Lemma chain_vertices_are_points_witness :
  run atan2f_table square origin 4 [] = Some (true, [pE; pN; pW; pS]) /\
  In pW square.
Proof.
  assert (Hrun : run atan2f_table square origin 4 [] = Some (true, [pE; pN; pW; pS]))
    by (vm_compute; reflexivity).
  split; [exact Hrun|].
  apply (@chain_vertices_are_points atan2f_table square origin 4 true _ Hrun pW).
  cbn. auto.
Defined.

(** X20.  With an empty point set every call that does not return [false]
    reads [points[0]] out of range, the first call to begin with. *)
Theorem empty_point_set_is_read_out_of_range :
  forall (atan2f : float -> float -> float) (mean : vec2f),
    (forall ls, SolverStep atan2f [] mean ls = None \/
                SolverStep atan2f [] mean ls = Some (false, ls)) /\
    (forall n, run atan2f [] mean (S n) [] = None).
Proof.
  intros atan2f mean. split.
  - intros ls. destruct (closure_check ls) eqn:Hc.
    + right. unfold SolverStep. now rewrite Hc.
    + left. apply SolverStep_empty_points; [reflexivity | congruence].
    + left. apply SolverStep_empty_points; [reflexivity | congruence].
  - induction n as [|n IH]; [reflexivity|].
    change (run atan2f [] mean (S (S n)) [])
      with (match run atan2f [] mean (S n) [] with
            | Some (_, ls) => SolverStep atan2f [] mean ls
            | None => None
            end).
    now rewrite IH.
Qed.

(** X21.  With a point set of a single point [p] of finite coordinates,
    whatever [atan2f] and [mean] are: the first call seeds the chain with
    [p], the second finds no candidate and appends [p] again, and the third
    and all later calls return [false], the chain being [[p; p]]. *)
Theorem single_point_set :
  forall (atan2f : float -> float -> float) (mean p : vec2f),
    vec_finite p = true ->
    run atan2f [p] mean 1 [] = Some (true, [p]) /\
    run atan2f [p] mean 2 [] = Some (true, [p; p]) /\
    forall n, run atan2f [p] mean (3 + n) [] = Some (false, [p; p]).
Proof.
  intros atan2f mean p Hfin.
  assert (H1 : run atan2f [p] mean 1 [] = Some (true, [p])) by reflexivity.
  assert (Hstep : SolverStep atan2f [p] mean [p] = Some (true, [p; p])).
  { unfold SolverStep, closure_check. cbn [length Nat.ltb Nat.leb].
    unfold extend. cbn [length Nat.sub nth_error].
    unfold select. cbn [select_loop]. rewrite (coincides_refl p Hfin).
    cbn [nth_error]. rewrite f360_not_below_f90. reflexivity. }
  assert (H2 : run atan2f [p] mean 2 [] = Some (true, [p; p])).
  { change (run atan2f [p] mean 2 [])
      with (match run atan2f [p] mean 1 [] with
            | Some (_, ls) => SolverStep atan2f [p] mean ls
            | None => None
            end).
    now rewrite H1. }
  assert (Hdone : SolverStep atan2f [p] mean [p; p] = Some (false, [p; p])).
  { unfold SolverStep, closure_check. cbn [length Nat.ltb Nat.leb Nat.sub nth_error].
    cbn [removelast closure_scan]. rewrite (vec_eq_refl p Hfin). reflexivity. }
  split; [exact H1|]. split; [exact H2|].
  intros n. replace (3 + n) with (S n + 2) by lia. rewrite run_app, H2.
  now apply run_after_false.
Qed.

Lemma single_point_set_witness :
  run atan2f_table [pE] pE 1 [] = Some (true, [pE]) /\
  run atan2f_table [pE] pE 2 [] = Some (true, [pE; pE]) /\
  forall n, run atan2f_table [pE] pE (3 + n) [] = Some (false, [pE; pE]).
Proof. apply (@single_point_set atan2f_table pE pE). reflexivity. Defined.

(** ** [main] on the data of [GenerateData] *)

Lemma pair_up_finite (l : list float) :
  forallb is_finite l = true -> all_finite (pair_up l) = true.
Proof.
  enough (H : (forallb is_finite l = true -> all_finite (pair_up l) = true) /\
              (forall a, forallb is_finite (a :: l) = true ->
                         all_finite (pair_up (a :: l)) = true)) by apply H.
  induction l as [|b l [IH1 IH2]].
  - split; [reflexivity | intros a _; reflexivity].
  - split; [apply IH2|].
    intros a H. cbn [forallb] in H.
    apply andb_prop in H as [Ha H]. apply andb_prop in H as [Hb Hl].
    cbn [pair_up]. unfold all_finite. cbn [forallb].
    unfold vec_finite at 1. cbn [x y]. rewrite Ha, Hb. cbn [andb].
    now apply IH1.
Qed.

(** X22.  In [main], when the numbers [GenerateData] draws are finite: the
    chain holds points [GenerateData] drew, never more than [kSamples + 1]
    of them, so that the vertex offsets of lines 277-291 stay far below
    [2^32]; and after every iteration the vertex ranges drawn from
    [vertices_d] lie inside the buffer exactly when no segment of the chain
    has coinciding ends. *)
Theorem main_draws_inside_the_buffer_iff :
  forall (atan2f : float -> float -> float) (cosf sinf : float -> float)
         (G : Type) (dist : G -> float * G) (gen gen' : G)
         (points : list vec2f) (mean : vec2f) (vertices : list float)
         (t : F64.double) (times : list F64.double) (st : main_state),
    GenerateData cosf sinf dist gen = (gen', (points, mean, vertices)) ->
    forallb is_finite (draws dist (2 * kSamples) gen) = true ->
    main atan2f cosf sinf dist gen (t :: times) = Some st ->
    (forall v, In v (ms_line_segments st) -> In v points) /\
    length (ms_line_segments st) <= kSamples + 1 /\
    exists calls,
      dynamic_draw_calls (length (ms_line_segments st)) = Some calls /\
      (Forall (in_buffer (ms_vertices_d st)) calls <->
       Forall (fun s => coincides (fst s) (snd s) = false)
              (all_segments mean (ms_line_segments st))).
Proof.
  intros atan2f cosf sinf G dist gen gen' points mean vertices t times st Hgen Hfin Hmain.
  unfold main in Hmain. rewrite Hgen in Hmain.
  destruct (@GenerateData_globals cosf sinf G dist gen gen' points mean vertices Hgen)
    as (Hp & Hl & _).
  assert (Hfinp : all_finite points = true) by (rewrite Hp; now apply pair_up_finite).
  pose proof (main_init_invariant atan2f cosf sinf points mean) as Hinit.
  destruct (@main_loop_invariant atan2f cosf sinf points mean (t :: times) main_init st
              Hinit Hmain) as [(_ & _ & _ & (n & b & Hrun) & _) _].
  assert (Hne : t :: times <> []) by discriminate.
  destruct (@main_loop_buffer atan2f cosf sinf points mean (t :: times) main_init st
              Hinit Hne Hmain) as [_ Hvd].
  destruct (@run_length atan2f points mean Hfinp n b _ Hrun) as (Hin & _ & Hlen).
  rewrite Hl in Hlen.
  split; [rewrite Forall_forall in Hin; exact Hin|]. split; [exact Hlen|].
  apply (@draw_calls_in_buffer_iff cosf sinf mean _ _ Hvd).
  change kSamples with 20 in Hlen. lia.
Qed.

(** The twenty points (-10,0), (-9,0), ..., (9,0): the seed is the leftmost
    point, every candidate has remapped angle 360, the second call appends
    the seed again, and the segment between the two equal vertices is not
    written to the buffer: the last range [main] draws lies outside it. *)
Lemma main_draws_inside_the_buffer_iff_witness :
  exists gen' points mean vertices st calls,
    GenerateData cosf_table sinf_table list_dist left_draws = (gen', (points, mean, vertices)) /\
    main atan2f_table cosf_table sinf_table list_dist left_draws (clock 3) = Some st /\
    ms_line_segments st = [pt (-10) 0; pt (-10) 0] /\
    length (ms_line_segments st) <= kSamples + 1 /\
    dynamic_draw_calls (length (ms_line_segments st)) = Some calls /\
    ~ Forall (in_buffer (ms_vertices_d st)) calls.
Proof.
  destruct (GenerateData cosf_table sinf_table list_dist left_draws)
    as [gen' [[points mean] vertices]] eqn:Hgen.
  assert (Hmean : mean = mkvec (lit true 8388608 (-24)) zero).
  { apply (f_equal (fun r => snd (fst (snd r)))) in Hgen. cbn [fst snd] in Hgen.
    rewrite <- Hgen. vm_compute. reflexivity. }
  assert (Hls : option_map ms_line_segments
                  (main atan2f_table cosf_table sinf_table list_dist left_draws (clock 3))
                = Some [pt (-10) 0; pt (-10) 0]) by (vm_compute; reflexivity).
  destruct (main atan2f_table cosf_table sinf_table list_dist left_draws (clock 3))
    as [st|] eqn:Hmain; [|discriminate].
  cbn [option_map] in Hls. apply some_eq in Hls.
  assert (Hfin : forallb is_finite (draws list_dist (2 * kSamples) left_draws) = true)
    by (vm_compute; reflexivity).
  change (clock 3) with (eighth 0 :: clock_from 1 2) in Hmain.
  destruct (@main_draws_inside_the_buffer_iff _ _ _ _ _ _ _ _ _ _ _ _ _ Hgen Hfin Hmain)
    as (_ & Hlen & calls & Hcalls & Hiff).
  exists gen', points, mean, vertices, st, calls.
  split; [reflexivity|]. split; [reflexivity|]. split; [exact Hls|].
  split; [exact Hlen|]. split; [exact Hcalls|].
  intros Hin. apply Hiff in Hin. rewrite Hls, Hmean in Hin.
  apply Forall_inv in Hin. vm_compute in Hin. discriminate.
Defined.

(** ** The buffer of a saved frame (lines 297-300) *)



